(** * sql-gen-for-ai: the template engine and the fluent builder

    A shallow embedding of [advanced_sql_generator.py]:
    - [Template]: the part of Python's [string.Template] that
      [SQLTemplateEngine.generate_query] calls ([safe_substitute]);
    - [SQLTemplateEngine]: the registry of templates and [generate_query];
    - [DynamicSQLBuilder]: the accumulator of clause fragments and [build].

    Python strings are modelled by [string].  The only characters the code
    inspects are ASCII ([$], [{], [}], letters, digits, [_]), and no byte of
    a multi-byte UTF-8 sequence is ASCII, so the byte view and the code-point
    view of a string are scanned alike. *)

From Stdlib Require Import ZArith Ascii String DecimalString.
From stdpp Require Import base option list strings gmap.

Local Open Scope Z_scope.

(** ** Python helpers *)

(** [sep.join(l)] *)
Fixpoint str_join (sep : string) (l : list string) : string :=
  match l with
  | [] => ""
  | [x] => x
  | x :: l' => x +:+ sep +:+ str_join sep l'
  end.

(** Truthiness of a [str]: only the empty string is falsy. *)
Definition truthy_str (s : string) : bool :=
  match s with
  | "" => false
  | String _ _ => true
  end.

(** Truthiness of a list: only the empty list is falsy. *)
Definition truthy_list {A} (l : list A) : bool :=
  match l with
  | [] => false
  | _ :: _ => true
  end.

(** Truthiness of an [int]: only zero is falsy. *)
Definition truthy_int (z : Z) : bool := negb (z =? 0).

(** [a or b] on strings *)
Definition str_or (a b : string) : string := if truthy_str a then a else b.

(** [f"{z}"] for an [int] *)
Definition str_of_int (z : Z) : string := NilEmpty.string_of_int (Z.to_int z).

(** [sub in s] on strings, as a proposition *)
Definition substring_of (sub s : string) : Prop :=
  ∃ pre post, s = pre +:+ sub +:+ post.

(** Exceptions raised by the modelled code. *)
Inductive exn : Type :=
  | ValueError (msg : string).

Inductive result (A : Type) : Type :=
  | Return (a : A)
  | Raise (e : exn).
Arguments Return {A} a.
Arguments Raise {A} e.

(** ** string.Template *)

Module Template.

(** [delimiter = '$'] *)
Definition delimiter : ascii := "$"%char.

(** [idpattern] is the ASCII-only class [_a-z] followed by any number of
    [_a-z0-9], under [flags = re.IGNORECASE]: the class of the first
    character, then the class of the repeated part. *)
Definition is_id_start (c : ascii) : bool :=
  let n := N_of_ascii c in
  ((97 <=? n) && (n <=? 122) || (65 <=? n) && (n <=? 90) || (n =? 95))%N.

Definition is_id_char (c : ascii) : bool :=
  is_id_start c || ((48 <=? N_of_ascii c) && (N_of_ascii c <=? 57))%N.

(** The greedy repetition of [idpattern]: the longest run of identifier
    characters and what follows it. *)
Fixpoint span_id (s : string) : string * string :=
  match s with
  | String c s' =>
      if is_id_char c then
        let '(run, rest) := span_id s' in (String c run, rest)
      else ("", s)
  | "" => ("", "")
  end.

(** [idpattern] matched at the start of [s]. *)
Definition match_id (s : string) : option (string * string) :=
  match s with
  | String c s' =>
      if is_id_start c then
        let '(run, rest) := span_id s' in Some (String c run, rest)
      else None
  | "" => None
  end.

(** A match of [Template.pattern]: which of the four named groups
    took part.  The alternation of the pattern sets exactly one. *)
Inductive match_object : Type :=
  | Escaped
  | Named (name : string)
  | Braced (name : string)
  | Invalid.

(** [mo.group()]: the whole matched text. *)
Definition group (mo : match_object) : string :=
  match mo with
  | Escaped => "$$"
  | Named name => String delimiter name
  | Braced name => String delimiter (String "{" name) +:+ "}"
  | Invalid => String delimiter ""
  end.

(** The alternatives of the pattern after the delimiter, each returning
    the match and the text after it. *)
Definition try_escaped (r : string) : option (match_object * string) :=
  match r with
  | String c r' => if Ascii.eqb c delimiter then Some (Escaped, r') else None
  | "" => None
  end.

Definition try_named (r : string) : option (match_object * string) :=
  match match_id r with
  | Some (name, rest) => Some (Named name, rest)
  | None => None
  end.

(** The braced alternative, an identifier between [{] and [}].  The
    identifier is greedy; giving characters back cannot help, since the
    character after a shorter identifier is an identifier character and
    not the closing brace. *)
Definition try_braced (r : string) : option (match_object * string) :=
  match r with
  | String "{" r1 =>
      match match_id r1 with
      | Some (name, String "}" r2) => Some (Braced name, r2)
      | _ => None
      end
  | _ => None
  end.

(** The invalid alternative matches the empty string. *)
Definition try_invalid (r : string) : option (match_object * string) :=
  Some (Invalid, r).

(** First alternative that matches, in the order of the pattern. *)
Definition or_else {A} (a b : option A) : option A :=
  match a with
  | Some _ => a
  | None => b
  end.

(** [pattern.match(s)]: the pattern anchored at the start of [s]. *)
Definition match_at (s : string) : option (match_object * string) :=
  match s with
  | String c r =>
      if Ascii.eqb c delimiter then
        or_else (try_escaped r)
          (or_else (try_named r) (or_else (try_braced r) (try_invalid r)))
      else None
  | "" => None
  end.

(** [pattern.sub(repl, s)]: at each position, left to right, a match is
    replaced by [repl mo] and scanning resumes after the match; a
    character where no match starts is copied.  [fuel] bounds the number
    of positions visited. *)
Fixpoint sub_fuel (fuel : nat) (repl : match_object → string) (s : string)
  : string :=
  match fuel with
  | O => ""
  | S fuel' =>
      match s with
      | "" => ""
      | String c s' =>
          match match_at s with
          | Some (mo, rest) => repl mo +:+ sub_fuel fuel' repl rest
          | None => String c (sub_fuel fuel' repl s')
          end
      end
  end.

Definition sub (repl : match_object → string) (s : string) : string :=
  sub_fuel (String.length s) repl s.

(** The segments [sub] cuts a string into: copied characters and matches
    ([pattern.finditer], with the text between the matches). *)
Inductive segment : Type :=
  | Text (c : ascii)
  | Match (mo : match_object).

Fixpoint scan_fuel (fuel : nat) (s : string) : list segment :=
  match fuel with
  | O => []
  | S fuel' =>
      match s with
      | "" => []
      | String c s' =>
          match match_at s with
          | Some (mo, rest) => Match mo :: scan_fuel fuel' rest
          | None => Text c :: scan_fuel fuel' s'
          end
      end
  end.

Definition scan (s : string) : list segment := scan_fuel (String.length s) s.

(** The text a segment stands for in the template, and what [sub] writes
    for it. *)
Definition source (sg : segment) : string :=
  match sg with
  | Text c => String c ""
  | Match mo => group mo
  end.

Definition replace (repl : match_object → string) (sg : segment) : string :=
  match sg with
  | Text c => String c ""
  | Match mo => repl mo
  end.

Fixpoint str_concat (l : list string) : string :=
  match l with
  | [] => ""
  | x :: l' => x +:+ str_concat l'
  end.

(** The length of the run of delimiters that ends [s], counted from a
    run of [n] delimiters before [s]. *)
Fixpoint delim_run (n : nat) (s : string) : nat :=
  match s with
  | "" => n
  | String c s' => delim_run (if Ascii.eqb c delimiter then S n else O) s'
  end.

Definition trailing_delims (s : string) : nat := delim_run 0 s.

(** A match of [r] seen as a match of [r] followed by more text. *)
Definition extend (r : string) (o : option (match_object * string))
  : option (match_object * string) :=
  (λ p, (p.1, p.2 +:+ r)) <$> o.

(** A template object holds its pattern in [self.template]. *)
Record t : Type := Template { template : string }.

(** [mo.group('named') or mo.group('braced')]: the placeholder name of a
    match, [None] for the escape and for an invalid delimiter. *)
Definition named_group (mo : match_object) : option string :=
  match mo with
  | Named name | Braced name => Some name
  | Escaped | Invalid => None
  end.

(** The helper [convert] of [safe_substitute]: a placeholder name is
    looked up, and [KeyError] gives back [mo.group()]; the escape gives
    the delimiter; an invalid delimiter gives back [mo.group()]. *)
Definition convert (mapping : gmap string string) (mo : match_object)
  : string :=
  match named_group mo with
  | Some named =>
      match mapping !! named with
      | Some v => v
      | None => group mo
      end
  | None =>
      match mo with
      | Escaped => String delimiter ""
      | _ => group mo
      end
  end.

(** [self.safe_substitute] called with keyword arguments [kws] only, so
    that the mapping it consults is [kws]. *)
Definition safe_substitute (self : t) (kws : gmap string string) : string :=
  sub (convert kws) (template self).

End Template.


(** ** SQLTemplateEngine *)

Module SQLTemplateEngine.

(** The object: [self.templates], a dict from template name to template. *)
Record t : Type := Engine { templates : gmap string Template.t }.

(** The table of built-in templates that [__init__] installs. *)
Definition builtin_templates : list (string * Template.t) :=
  [ ("basic_select", Template.Template "SELECT $columns FROM $table");
    ("filtered_select",
      Template.Template "SELECT $columns FROM $table WHERE $conditions");
    ("joined_select",
      Template.Template
        "SELECT $columns FROM $table $joins WHERE $conditions");
    ("aggregated_select",
      Template.Template
        "SELECT $group_columns, $aggregates FROM $table GROUP BY $group_columns");
    ("paginated_select",
      Template.Template
        "SELECT $columns FROM $table ORDER BY $order_by LIMIT $limit OFFSET $offset");
    ("basic_insert",
      Template.Template "INSERT INTO $table ($columns) VALUES ($values)");
    ("bulk_insert",
      Template.Template "INSERT INTO $table ($columns) VALUES $value_sets");
    ("insert_select",
      Template.Template
        "INSERT INTO $table ($columns) SELECT $select_columns FROM $source_table WHERE $conditions");
    ("basic_update",
      Template.Template "UPDATE $table SET $assignments WHERE $conditions");
    ("joined_update",
      Template.Template
        "UPDATE $table $joins SET $assignments WHERE $conditions");
    ("basic_delete",
      Template.Template "DELETE FROM $table WHERE $conditions");
    ("joined_delete",
      Template.Template "DELETE $table FROM $table $joins WHERE $conditions");
    ("create_table",
      Template.Template "CREATE TABLE $table ($column_definitions)");
    ("create_index",
      Template.Template "CREATE INDEX $index_name ON $table ($columns)") ].

Definition __init__ : t := Engine (list_to_map builtin_templates).

(** What a call leaves behind: its outcome, the engine, and the dict the
    caller passed as [variables]. *)
Record call (A : Type) : Type := Call {
  outcome : result A;
  self_after : t;
  variables_after : gmap string string
}.
Arguments Call {A} _ _ _.
Arguments outcome {A} _.
Arguments self_after {A} _.
Arguments variables_after {A} _.

(** [generate_query(self, template_name, variables)].  The keyword
    arguments built from [variables] are a fresh dict with the same
    entries; neither [self.templates] nor [variables] is written. *)
Definition generate_query (self : t) (template_name : string)
    (variables : gmap string string) : call string :=
  match templates self !! template_name with
  | None =>
      Call (Raise (ValueError
                     ("Template '" +:+ template_name +:+ "' not found")))
           self variables
  | Some template =>
      let kws := variables in
      Call (Return (Template.safe_substitute template kws)) self variables
  end.

(** [add_template(self, name, template_string)] *)
Definition add_template (self : t) (name template_string : string) : t :=
  Engine (<[name := Template.Template template_string]> (templates self)).

End SQLTemplateEngine.

(** ** DynamicSQLBuilder *)

Module DynamicSQLBuilder.

(** The dict [self.query_parts], one field per key. *)
Record parts : Type := Parts {
  p_select : list string;
  p_from : string;
  p_joins : list string;
  p_where : list string;
  p_group_by : list string;
  p_having : list string;
  p_order_by : list string;
  p_limit : option string
}.

(** A builder object: its identity and its [query_parts]. *)
Record t : Type := Builder { obj_id : nat; query_parts : parts }.

Definition empty_parts : parts :=
  {| p_select := []; p_from := ""; p_joins := []; p_where := [];
     p_group_by := []; p_having := []; p_order_by := []; p_limit := None |}.

(** [__init__] binds a fresh dict to [self.query_parts]. *)
Definition __init__ (self : t) : t := Builder (obj_id self) empty_parts.

(** [DynamicSQLBuilder()] allocating the object [id]. *)
Definition new (id : nat) : t := __init__ (Builder id empty_parts).

(** The table reference of [from_table] and [join]:
    [f"{table} {alias}" if alias else table]. *)
Definition table_ref (table : string) (alias : option string) : string :=
  match alias with
  | Some a => if truthy_str a then table +:+ " " +:+ a else table
  | None => table
  end.

(** The mutators.  Each ends with [return self]: the result is the
    receiver, with its identity, after the update. *)
Definition select (self : t) (columns : list string) : t :=
  let q := query_parts self in
  Builder (obj_id self)
    {| p_select := p_select q ++ columns; p_from := p_from q;
       p_joins := p_joins q; p_where := p_where q;
       p_group_by := p_group_by q; p_having := p_having q;
       p_order_by := p_order_by q; p_limit := p_limit q |}.

Definition from_table (self : t) (table : string) (alias : option string)
  : t :=
  let q := query_parts self in
  Builder (obj_id self)
    {| p_select := p_select q; p_from := table_ref table alias;
       p_joins := p_joins q; p_where := p_where q;
       p_group_by := p_group_by q; p_having := p_having q;
       p_order_by := p_order_by q; p_limit := p_limit q |}.

(** [join_type] defaults to ['INNER']. *)
Definition join (self : t) (table on_condition join_type : string)
    (alias : option string) : t :=
  let q := query_parts self in
  Builder (obj_id self)
    {| p_select := p_select q; p_from := p_from q;
       p_joins := p_joins q ++
         [join_type +:+ " JOIN " +:+ table_ref table alias +:+ " ON "
            +:+ on_condition];
       p_where := p_where q;
       p_group_by := p_group_by q; p_having := p_having q;
       p_order_by := p_order_by q; p_limit := p_limit q |}.

Definition where_ (self : t) (condition : string) : t :=
  let q := query_parts self in
  Builder (obj_id self)
    {| p_select := p_select q; p_from := p_from q;
       p_joins := p_joins q; p_where := p_where q ++ [condition];
       p_group_by := p_group_by q; p_having := p_having q;
       p_order_by := p_order_by q; p_limit := p_limit q |}.

Definition group_by (self : t) (columns : list string) : t :=
  let q := query_parts self in
  Builder (obj_id self)
    {| p_select := p_select q; p_from := p_from q;
       p_joins := p_joins q; p_where := p_where q;
       p_group_by := p_group_by q ++ columns; p_having := p_having q;
       p_order_by := p_order_by q; p_limit := p_limit q |}.

(** [direction] defaults to ['ASC']. *)
Definition order_by (self : t) (column direction : string) : t :=
  let q := query_parts self in
  Builder (obj_id self)
    {| p_select := p_select q; p_from := p_from q;
       p_joins := p_joins q; p_where := p_where q;
       p_group_by := p_group_by q; p_having := p_having q;
       p_order_by := p_order_by q ++ [column +:+ " " +:+ direction];
       p_limit := p_limit q |}.

(** [offset] defaults to [None]; [if offset:] is its truthiness. *)
Definition limit (self : t) (count : Z) (offset : option Z) : t :=
  let q := query_parts self in
  let l := "LIMIT " +:+ str_of_int count in
  let l :=
    match offset with
    | Some m => if truthy_int m then l +:+ " OFFSET " +:+ str_of_int m else l
    | None => l
    end in
  Builder (obj_id self)
    {| p_select := p_select q; p_from := p_from q;
       p_joins := p_joins q; p_where := p_where q;
       p_group_by := p_group_by q; p_having := p_having q;
       p_order_by := p_order_by q; p_limit := Some l |}.

Definition reset (self : t) : t := __init__ self.

(** The list [parts] that [build] fills, clause by clause. *)
Definition select_clause (q : parts) : string :=
  "SELECT " +:+ str_or (str_join ", " (p_select q)) "*".

Definition build_parts (q : parts) : list string :=
  let parts := [] in
  let parts := parts ++ [select_clause q] in
  let parts :=
    if truthy_str (p_from q) then parts ++ ["FROM " +:+ p_from q]
    else parts in
  let parts :=
    if truthy_list (p_joins q) then parts ++ p_joins q else parts in
  let parts :=
    if truthy_list (p_where q)
    then parts ++ ["WHERE " +:+ str_join " AND " (p_where q)]
    else parts in
  let parts :=
    if truthy_list (p_group_by q)
    then parts ++ ["GROUP BY " +:+ str_join ", " (p_group_by q)]
    else parts in
  let parts :=
    if truthy_list (p_having q)
    then parts ++ ["HAVING " +:+ str_join " AND " (p_having q)]
    else parts in
  let parts :=
    if truthy_list (p_order_by q)
    then parts ++ ["ORDER BY " +:+ str_join ", " (p_order_by q)]
    else parts in
  let parts :=
    match p_limit q with
    | Some l => if truthy_str l then parts ++ [l] else parts
    | None => parts
    end in
  parts.

(** [build(self)]: the parts joined by single spaces.  The builder is
    not written. *)
Definition build (self : t) : string :=
  str_join " " (build_parts (query_parts self)).

(** The calls that mutate a builder: the public methods of the class
    other than [build]. *)
Inductive mutator : Type :=
  | Select (columns : list string)
  | FromTable (table : string) (alias : option string)
  | Join (table on_condition join_type : string) (alias : option string)
  | Where (condition : string)
  | GroupBy (columns : list string)
  | OrderBy (column direction : string)
  | Limit (count : Z) (offset : option Z)
  | Reset.

Definition invoke (self : t) (m : mutator) : t :=
  match m with
  | Select columns => select self columns
  | FromTable table alias => from_table self table alias
  | Join table on_condition join_type alias =>
      join self table on_condition join_type alias
  | Where condition => where_ self condition
  | GroupBy columns => group_by self columns
  | OrderBy column direction => order_by self column direction
  | Limit count offset => limit self count offset
  | Reset => reset self
  end.

(** A chain of calls [b.m1(..).m2(..)...], left to right. *)
Definition chain (self : t) (ms : list mutator) : t :=
  foldl invoke self ms.

(** What the blocks of [build] add to [parts], block by block: the FROM
    block, and the blocks from WHERE to LIMIT. *)
Definition from_part (q : parts) : list string :=
  if truthy_str (p_from q) then ["FROM " +:+ p_from q] else [].

Definition later_parts (q : parts) : list string :=
  (if truthy_list (p_where q)
   then ["WHERE " +:+ str_join " AND " (p_where q)] else [])
  ++ (if truthy_list (p_group_by q)
      then ["GROUP BY " +:+ str_join ", " (p_group_by q)] else [])
  ++ (if truthy_list (p_having q)
      then ["HAVING " +:+ str_join " AND " (p_having q)] else [])
  ++ (if truthy_list (p_order_by q)
      then ["ORDER BY " +:+ str_join ", " (p_order_by q)] else [])
  ++ (match p_limit q with
      | Some l => if truthy_str l then [l] else []
      | None => []
      end).


End DynamicSQLBuilder.

(** ** SQLVariationEngine *)

Module SQLVariationEngine.

(** The object: [self.template_engine], which no method below reads. *)
Record t : Type := Engine { template_engine : SQLTemplateEngine.t }.

Definition __init__ : t := Engine SQLTemplateEngine.__init__.

(** The result of a method that subscripts a dict: its value, or the
    [KeyError] of the first key that was missing. *)
Inductive lookup (A : Type) : Type :=
  | Found (a : A)
  | KeyError (key : string).
Arguments Found {A} a.
Arguments KeyError {A} key.

(** [d[key]] and [d.get(key, default)] on an entry that may be absent. *)
Definition getitem {A} (key : string) (entry : option A) : lookup A :=
  match entry with
  | Some a => Found a
  | None => KeyError key
  end.

Definition get {A} (entry : option A) (default : A) : A :=
  match entry with
  | Some a => a
  | None => default
  end.

(** The [config] dict of [generate_crud_variations], one field per key the
    method reads; [None] is an absent key. *)
Record crud_config : Type := CrudConfig {
  cc_table : option string;
  cc_columns : option (list string);
  cc_primary_key : option string
}.

(** The dict [variations] it returns, one field per key. *)
Record crud_variations : Type := CrudVariations {
  v_select : list string;
  v_insert : list string;
  v_update : list string;
  v_delete : list string
}.

Definition generate_crud_variations (self : t) (config : crud_config)
  : lookup crud_variations :=
  match getitem "table" (cc_table config) with
  | KeyError key => KeyError key
  | Found table =>
      let columns := get (cc_columns config) [] in
      let pk_column := get (cc_primary_key config) "id" in
      let select :=
        [ "SELECT * FROM " +:+ table;
          "SELECT " +:+ str_join ", " columns +:+ " FROM " +:+ table;
          "SELECT COUNT(*) FROM " +:+ table;
          "SELECT * FROM " +:+ table +:+ " ORDER BY " +:+ pk_column
            +:+ " DESC LIMIT 10";
          match columns with
          | c0 :: _ => "SELECT DISTINCT " +:+ c0 +:+ " FROM " +:+ table
          | [] => "SELECT * FROM " +:+ table
          end ] in
      let insert :=
        if truthy_list columns then
          let placeholders := str_join ", " (map (λ _, "?") columns) in
          let column_list := str_join ", " columns in
          [ "INSERT INTO " +:+ table +:+ " (" +:+ column_list
              +:+ ") VALUES (" +:+ placeholders +:+ ")";
            "INSERT OR IGNORE INTO " +:+ table +:+ " (" +:+ column_list
              +:+ ") VALUES (" +:+ placeholders +:+ ")";
            "INSERT INTO " +:+ table +:+ " (" +:+ column_list
              +:+ ") SELECT " +:+ column_list +:+ " FROM temp_" +:+ table ]
        else [] in
      let update :=
        match columns with
        | c0 :: _ =>
            let set_clause :=
              str_join ", " (map (λ col, col +:+ " = ?") columns) in
            [ "UPDATE " +:+ table +:+ " SET " +:+ set_clause +:+ " WHERE "
                +:+ pk_column +:+ " = ?";
              "UPDATE " +:+ table +:+ " SET " +:+ c0 +:+ " = ? WHERE "
                +:+ pk_column +:+ " IN (SELECT " +:+ pk_column
                +:+ " FROM temp_ids)" ]
        | [] => []
        end in
      let delete :=
        [ "DELETE FROM " +:+ table +:+ " WHERE " +:+ pk_column +:+ " = ?";
          "DELETE FROM " +:+ table +:+ " WHERE created_at < ?";
          "DELETE FROM " +:+ table +:+ " WHERE " +:+ pk_column
            +:+ " IN (?, ?, ?)" ] in
      Found (CrudVariations select insert update delete)
  end.

(** The [config] dict of [generate_analytical_variations]. *)
Record analytical_config : Type := AnalyticalConfig {
  ac_table : option string;
  ac_date_column : option string;
  ac_group_columns : option (list string);
  ac_numeric_columns : option (list string)
}.

(** The two queries the loop over [group_columns] adds for a column, and
    the two the loop over [numeric_columns] adds. *)
Definition grouping_queries (table col : string) : list string :=
  [ "SELECT " +:+ col +:+ ", COUNT(*) as count FROM " +:+ table
      +:+ " GROUP BY " +:+ col +:+ " ORDER BY count DESC";
    "SELECT " +:+ col +:+ ", COUNT(*) as count FROM " +:+ table
      +:+ " GROUP BY " +:+ col +:+ " HAVING count > 10" ].

Definition numeric_queries (table col : string) : list string :=
  [ "SELECT AVG(" +:+ col +:+ "), MIN(" +:+ col +:+ "), MAX(" +:+ col
      +:+ "), SUM(" +:+ col +:+ ") FROM " +:+ table;
    "SELECT " +:+ col +:+ ", ROW_NUMBER() OVER (ORDER BY " +:+ col
      +:+ " DESC) as rank FROM " +:+ table ].

(** A [for] loop that extends [queries] by [body col] for each [col]. *)
Fixpoint extend_each (body : string → list string) (cols : list string)
    (queries : list string) : list string :=
  match cols with
  | [] => queries
  | col :: cols' => extend_each body cols' (queries ++ body col)
  end.

Definition generate_analytical_variations (self : t)
    (config : analytical_config) : lookup (list string) :=
  match getitem "table" (ac_table config) with
  | KeyError key => KeyError key
  | Found table =>
      let date_column := get (ac_date_column config) "created_at" in
      let group_columns := get (ac_group_columns config) [] in
      let numeric_columns := get (ac_numeric_columns config) [] in
      let queries := [] in
      let queries :=
        queries ++
        [ "SELECT DATE(" +:+ date_column +:+ ") as date, COUNT(*) FROM "
            +:+ table +:+ " GROUP BY DATE(" +:+ date_column +:+ ")";
          "SELECT YEAR(" +:+ date_column +:+ ") as year, MONTH("
            +:+ date_column +:+ ") as month, COUNT(*) FROM " +:+ table
            +:+ " GROUP BY YEAR(" +:+ date_column +:+ "), MONTH("
            +:+ date_column +:+ ")";
          "SELECT * FROM " +:+ table +:+ " WHERE " +:+ date_column
            +:+ " >= DATE_SUB(NOW(), INTERVAL 30 DAY)" ] in
      let queries :=
        if truthy_list group_columns
        then extend_each (grouping_queries table) group_columns queries
        else queries in
      let queries :=
        if truthy_list numeric_columns
        then extend_each (numeric_queries table) numeric_columns queries
        else queries in
      let queries :=
        match group_columns, numeric_columns with
        | group_col :: _, num_col :: _ =>
            queries ++
            [ "SELECT " +:+ group_col +:+ ", " +:+ num_col +:+ ", AVG("
                +:+ num_col +:+ ") OVER (PARTITION BY " +:+ group_col
                +:+ ") as avg_by_group FROM " +:+ table;
              "SELECT " +:+ group_col +:+ ", " +:+ num_col
                +:+ ", RANK() OVER (PARTITION BY " +:+ group_col
                +:+ " ORDER BY " +:+ num_col
                +:+ " DESC) as rank_in_group FROM " +:+ table ]
        | _, _ => queries
        end in
      Found queries
  end.

(** An entry of [config['joins']] and the [config] dict of
    [generate_join_variations]. *)
Record join_config : Type := JoinConfig {
  jc_table : option string;
  jc_on : option string;
  jc_type : option string
}.

Record join_variations_config : Type := JoinVariationsConfig {
  jv_main_table : option string;
  jv_joins : option (list join_config)
}.

(** The three queries the loop adds for one join. *)
Definition join_queries (main_table join_table on_condition join_type : string)
  : list string :=
  [ "SELECT * FROM " +:+ main_table +:+ " " +:+ join_type +:+ " JOIN "
      +:+ join_table +:+ " ON " +:+ on_condition;
    "SELECT " +:+ main_table +:+ ".*, " +:+ join_table +:+ ".name FROM "
      +:+ main_table +:+ " " +:+ join_type +:+ " JOIN " +:+ join_table
      +:+ " ON " +:+ on_condition;
    "SELECT COUNT(*) FROM " +:+ main_table +:+ " " +:+ join_type
      +:+ " JOIN " +:+ join_table +:+ " ON " +:+ on_condition ].

(** The loop over [join_configs]; a missing key ends it with [KeyError]. *)
Fixpoint join_loop (main_table : string) (join_configs : list join_config)
    (queries : list string) : lookup (list string) :=
  match join_configs with
  | [] => Found queries
  | jc :: rest =>
      match getitem "table" (jc_table jc) with
      | KeyError key => KeyError key
      | Found join_table =>
          match getitem "on" (jc_on jc) with
          | KeyError key => KeyError key
          | Found on_condition =>
              let join_type := get (jc_type jc) "INNER" in
              join_loop main_table rest
                (queries
                   ++ join_queries main_table join_table on_condition
                        join_type)
          end
      end
  end.

Definition generate_join_variations (self : t)
    (config : join_variations_config) : lookup (list string) :=
  match getitem "main_table" (jv_main_table config) with
  | KeyError key => KeyError key
  | Found main_table =>
      match getitem "joins" (jv_joins config) with
      | KeyError key => KeyError key
      | Found join_configs => join_loop main_table join_configs []
      end
  end.

End SQLVariationEngine.

(** ** Notions used to state properties *)

(** Does the string hold a delimiter, and does it hold two in a row? *)
Fixpoint has_delim (s : string) : bool :=
  match s with
  | "" => false
  | String c s' => Ascii.eqb c Template.delimiter || has_delim s'
  end.

Fixpoint has_escape (s : string) : bool :=
  match s with
  | String c1 ((String c2 _) as s') =>
      Ascii.eqb c1 Template.delimiter && Ascii.eqb c2 Template.delimiter
      || has_escape s'
  | _ => false
  end.

(** The placeholder names of a pattern, in the order of the scan. *)
Definition placeholder_names (s : string) : list string :=
  omap (λ sg, match sg with
              | Template.Match mo => Template.named_group mo
              | Template.Text _ => None
              end) (Template.scan s).

(** The clause of the builder state that a mutator writes; [reset] writes
    them all and has none of its own. *)
Inductive clause : Type :=
  | SelectClause | FromClause | JoinClause | WhereClause
  | GroupByClause | OrderByClause | LimitClause.

Definition clause_of (m : DynamicSQLBuilder.mutator) : option clause :=
  match m with
  | DynamicSQLBuilder.Select _ => Some SelectClause
  | DynamicSQLBuilder.FromTable _ _ => Some FromClause
  | DynamicSQLBuilder.Join _ _ _ _ => Some JoinClause
  | DynamicSQLBuilder.Where _ => Some WhereClause
  | DynamicSQLBuilder.GroupBy _ => Some GroupByClause
  | DynamicSQLBuilder.OrderBy _ _ => Some OrderByClause
  | DynamicSQLBuilder.Limit _ _ => Some LimitClause
  | DynamicSQLBuilder.Reset => None
  end.

(** What a call passes to each clause: the fragments it appends to an
    accumulating clause, or the value it sets a replacing clause to. *)
Definition select_args (m : DynamicSQLBuilder.mutator) : list string :=
  match m with
  | DynamicSQLBuilder.Select columns => columns
  | _ => []
  end.

Definition join_args (m : DynamicSQLBuilder.mutator) : list string :=
  match m with
  | DynamicSQLBuilder.Join table on_condition join_type alias =>
      [join_type +:+ " JOIN " +:+ DynamicSQLBuilder.table_ref table alias
         +:+ " ON " +:+ on_condition]
  | _ => []
  end.

Definition where_args (m : DynamicSQLBuilder.mutator) : list string :=
  match m with
  | DynamicSQLBuilder.Where condition => [condition]
  | _ => []
  end.

Definition group_by_args (m : DynamicSQLBuilder.mutator) : list string :=
  match m with
  | DynamicSQLBuilder.GroupBy columns => columns
  | _ => []
  end.

Definition order_by_args (m : DynamicSQLBuilder.mutator) : list string :=
  match m with
  | DynamicSQLBuilder.OrderBy column direction => [column +:+ " " +:+ direction]
  | _ => []
  end.

Definition from_args (m : DynamicSQLBuilder.mutator) : list string :=
  match m with
  | DynamicSQLBuilder.FromTable table alias =>
      [DynamicSQLBuilder.table_ref table alias]
  | _ => []
  end.

Definition limit_text (count : Z) (offset : option Z) : string :=
  "LIMIT " +:+ str_of_int count
    +:+ match offset with
        | Some m => if truthy_int m then " OFFSET " +:+ str_of_int m else ""
        | None => ""
        end.

Definition limit_args (m : DynamicSQLBuilder.mutator) : list string :=
  match m with
  | DynamicSQLBuilder.Limit count offset => [limit_text count offset]
  | _ => []
  end.

Definition is_reset (m : DynamicSQLBuilder.mutator) : bool :=
  match m with
  | DynamicSQLBuilder.Reset => true
  | _ => false
  end.

(** * Properties *)

(** ** Strings *)

Lemma str_app_nil_r (s : string) : s +:+ "" = s.
Proof. induction s as [|c s IH]; [done|]. by rewrite <-IH at 2. Qed.

Lemma str_app_assoc (a b c : string) : (a +:+ b) +:+ c = a +:+ b +:+ c.
Proof.
  induction a as [|x a IH]; [done|].
  change (String x ((a +:+ b) +:+ c) = String x (a +:+ b +:+ c)).
  by rewrite IH.
Qed.

Lemma str_app_cons (x : ascii) (a b : string) :
  String x a +:+ b = String x (a +:+ b).
Proof. done. Qed.

Lemma str_app_length (a b : string) :
  String.length (a +:+ b) = (String.length a + String.length b)%nat.
Proof.
  induction a as [|x a IH]; [done|].
  rewrite str_app_cons. simpl. by rewrite IH.
Qed.

Lemma str_join_cons (sep x y : string) (l : list string) :
  str_join sep (x :: y :: l) = x +:+ sep +:+ str_join sep (y :: l).
Proof. done. Qed.

Lemma str_join_app (sep : string) (l1 l2 : list string) :
  l1 ≠ [] → l2 ≠ [] →
  str_join sep (l1 ++ l2) = str_join sep l1 +:+ sep +:+ str_join sep l2.
Proof.
  intros H1 H2. induction l1 as [|x [|y l1] IH]; [done| |].
  - destruct l2 as [|z l2]; [done|]. done.
  - change (x +:+ sep +:+ str_join sep ((y :: l1) ++ l2)
            = (x +:+ sep +:+ str_join sep (y :: l1))
                +:+ sep +:+ str_join sep l2).
    rewrite IH by done. by rewrite !str_app_assoc.
Qed.


(** ** The scanner of string.Template *)

Section scanner.
Import Template.

Lemma span_id_source (s run rest : string) :
  span_id s = (run, rest) → s = run +:+ rest.
Proof.
  revert run rest. induction s as [|c s IH]; intros run rest; simpl.
  - by intros [= <- <-].
  - destruct (is_id_char c); [|by intros [= <- <-]].
    destruct (span_id s) as [run' rest'] eqn:E. intros [= <- <-].
    by rewrite str_app_cons, <-(IH _ _ eq_refl).
Qed.

Lemma match_id_source (s name rest : string) :
  match_id s = Some (name, rest) → s = name +:+ rest.
Proof.
  destruct s as [|c s]; simpl; [done|].
  destruct (is_id_start c); [|done].
  destruct (span_id s) as [run rest'] eqn:E. intros [= <- <-].
  by rewrite str_app_cons, <-(span_id_source _ _ _ E).
Qed.

(** A match consumes exactly its own text. *)
Lemma match_at_source (s : string) (mo : match_object) (rest : string) :
  match_at s = Some (mo, rest) → s = group mo +:+ rest.
Proof.
  destruct s as [|c r]; simpl; [done|].
  destruct (Ascii.eqb_spec c delimiter) as [->|]; [|done].
  unfold or_else.
  destruct (try_escaped r) as [[mo1 rest1]|] eqn:E1.
  { intros [= <- <-]. destruct r as [|c1 r1]; simpl in E1; [done|].
    destruct (Ascii.eqb_spec c1 delimiter) as [->|]; [|done].
    by injection E1 as <- <-. }
  destruct (try_named r) as [[mo2 rest2]|] eqn:E2.
  { intros [= <- <-]. unfold try_named in E2.
    destruct (match_id r) as [[name rest']|] eqn:E; [|done].
    injection E2 as <- <-. simpl.
    by rewrite str_app_cons, <-(match_id_source _ _ _ E). }
  destruct (try_braced r) as [[mo3 rest3]|] eqn:E3.
  { intros [= <- <-]. unfold try_braced in E3.
    destruct r as [|c1 r1]; [done|].
    destruct (Ascii.eqb_spec c1 "{") as [->|Hne].
    - destruct (match_id r1) as [[name rest']|] eqn:E.
      + apply match_id_source in E as ->.
        destruct rest' as [|c2 r2]; [done|].
        destruct (Ascii.eqb_spec c2 "}") as [->|Hne].
        * injection E3 as <- <-. simpl.
          rewrite !str_app_cons, str_app_assoc. done.
        * exfalso. revert E3 Hne. clear.
          destruct c2 as [[] [] [] [] [] [] [] []]; done.
      + exfalso. revert E3. clear. done.
    - exfalso. revert E3 Hne. clear.
      destruct c1 as [[] [] [] [] [] [] [] []]; done. }
  unfold try_invalid. by intros [= <- <-].
Qed.

Lemma group_length (mo : match_object) : (0 < String.length (group mo))%nat.
Proof. destruct mo; simpl; lia. Qed.

Lemma match_at_shorter (s : string) (mo : match_object) (rest : string) :
  match_at s = Some (mo, rest) →
  (String.length rest < String.length s)%nat.
Proof.
  intros ->%match_at_source. rewrite str_app_length.
  pose proof (group_length mo). lia.
Qed.
(** Fuel: the length of the string is enough, and more changes nothing. *)
Lemma sub_fuel_enough (repl : match_object → string) (n m : nat) (s : string) :
  (String.length s ≤ n)%nat → (String.length s ≤ m)%nat →
  sub_fuel n repl s = sub_fuel m repl s.
Proof.
  revert m s. induction n as [|n IH]; intros m s Hn Hm.
  - destruct s; simpl in Hn; [|lia]. by destruct m.
  - destruct m as [|m]; [destruct s; simpl in Hm; [done|lia]|].
    destruct s as [|c s']; [done|].
    cbn [sub_fuel]. cbn [String.length] in Hn, Hm.
    destruct (match_at (String c s')) as [[mo rest]|] eqn:E.
    + apply match_at_shorter in E. cbn [String.length] in E.
      f_equal. apply IH; lia.
    + f_equal. apply IH; lia.
Qed.

Lemma scan_fuel_enough (n m : nat) (s : string) :
  (String.length s ≤ n)%nat → (String.length s ≤ m)%nat →
  scan_fuel n s = scan_fuel m s.
Proof.
  revert m s. induction n as [|n IH]; intros m s Hn Hm.
  - destruct s; simpl in Hn; [|lia]. by destruct m.
  - destruct m as [|m]; [destruct s; simpl in Hm; [done|lia]|].
    destruct s as [|c s']; [done|].
    cbn [scan_fuel]. cbn [String.length] in Hn, Hm.
    destruct (match_at (String c s')) as [[mo rest]|] eqn:E.
    + apply match_at_shorter in E. cbn [String.length] in E.
      f_equal. apply IH; lia.
    + f_equal. apply IH; lia.
Qed.

(** The equations of [sub] and [scan]. *)
Lemma sub_nil (repl : match_object → string) : sub repl "" = "".
Proof. done. Qed.

Lemma sub_match (repl : match_object → string) (s : string)
    (mo : match_object) (rest : string) :
  match_at s = Some (mo, rest) → sub repl s = repl mo +:+ sub repl rest.
Proof.
  intros E. pose proof (match_at_shorter _ _ _ E) as Hlt.
  unfold sub. destruct s as [|c s']; [done|].
  cbn [String.length sub_fuel] in *. rewrite E. f_equal.
  apply sub_fuel_enough; lia.
Qed.

Lemma sub_text (repl : match_object → string) (c : ascii) (s : string) :
  match_at (String c s) = None →
  sub repl (String c s) = String c (sub repl s).
Proof. intros E. unfold sub. cbn [String.length sub_fuel]. by rewrite E. Qed.

Lemma scan_nil : scan "" = [].
Proof. done. Qed.

Lemma scan_match (s : string) (mo : match_object) (rest : string) :
  match_at s = Some (mo, rest) → scan s = Match mo :: scan rest.
Proof.
  intros E. pose proof (match_at_shorter _ _ _ E) as Hlt.
  unfold scan. destruct s as [|c s']; [done|].
  cbn [String.length scan_fuel] in *. rewrite E. f_equal.
  apply scan_fuel_enough; lia.
Qed.

Lemma scan_text (c : ascii) (s : string) :
  match_at (String c s) = None → scan (String c s) = Text c :: scan s.
Proof. intros E. unfold scan. cbn [String.length scan_fuel]. by rewrite E. Qed.

(** Induction along the scan: a proof for the empty string, for a string
    that starts with a match, and for one that starts with a copied
    character. *)
Lemma scan_ind (P : string → Prop) :
  P "" →
  (∀ s mo rest, match_at s = Some (mo, rest) → P rest → P s) →
  (∀ c s, match_at (String c s) = None → P s → P (String c s)) →
  ∀ s, P s.
Proof.
  intros Hnil Hmatch Htext s.
  remember (String.length s) as n eqn:Hn.
  revert s Hn. induction (lt_wf n) as [n _ IH]. intros s ->.
  destruct s as [|c s']; [done|].
  destruct (match_at (String c s')) as [[mo rest]|] eqn:E.
  - apply (Hmatch _ _ _ E).
    apply (IH (String.length rest)); [|done].
    by apply match_at_shorter in E.
  - apply (Htext _ _ E). apply (IH (String.length s')); [|done].
    cbn [String.length]. lia.
Qed.

(** [sub] writes, segment by segment, the replacement of each segment. *)
Lemma sub_scan (repl : match_object → string) (s : string) :
  sub repl s = str_concat (replace repl <$> scan s).
Proof.
  induction s as [|s mo rest E IH|c s E IH] using scan_ind.
  - done.
  - rewrite (sub_match _ _ _ _ E), (scan_match _ _ _ E), IH. done.
  - rewrite (sub_text _ _ _ E), (scan_text _ _ E), IH. done.
Qed.

(** The segments, read back, are the template. *)
Lemma scan_source (s : string) : str_concat (source <$> scan s) = s.
Proof.
  induction s as [|s mo rest E IH|c s E IH] using scan_ind.
  - done.
  - rewrite (scan_match _ _ _ E). cbn [fmap list_fmap str_concat source].
    change (list_fmap _ _ source (scan rest)) with (source <$> scan rest).
    rewrite IH. symmetry. by apply match_at_source.
  - rewrite (scan_text _ _ E). cbn [fmap list_fmap str_concat source].
    change (list_fmap _ _ source (scan s)) with (source <$> scan s).
    by rewrite IH.
Qed.

Lemma str_concat_app (l1 l2 : list string) :
  str_concat (l1 ++ l2) = str_concat l1 +:+ str_concat l2.
Proof.
  induction l1 as [|x l1 IH]; [done|].
  cbn [app str_concat]. change (x :: l1 ++ l2) with (x :: (l1 ++ l2)).
  by rewrite IH, str_app_assoc.
Qed.
End scanner.

(** ** Scanning a template in two pieces

    A template cut in front of a delimiter is scanned piece by piece,
    provided the first piece does not end in the middle of a token: the
    run of delimiters that ends it has even length. *)

Section composition.
Import Template.

Implicit Types (a r s : string) (mo : match_object).

Lemma or_else_extend r (o1 o2 : option (match_object * string)) :
  or_else (extend r o1) (extend r o2) = extend r (or_else o1 o2).
Proof. by destruct o1. Qed.

Lemma span_id_app s run rest r0 :
  span_id s = (run, rest) →
  span_id (s +:+ String delimiter r0) = (run, rest +:+ String delimiter r0).
Proof.
  revert run rest. induction s as [|c s IH]; intros run rest.
  - by intros [= <- <-].
  - rewrite str_app_cons. simpl. destruct (is_id_char c).
    + destruct (span_id s) as [run' rest'] eqn:E. intros [= <- <-].
      by rewrite (IH _ _ eq_refl).
    + by intros [= <- <-].
Qed.

Lemma match_id_app s r0 :
  match_id (s +:+ String delimiter r0)
  = (λ p, (p.1, p.2 +:+ String delimiter r0)) <$> match_id s.
Proof.
  destruct s as [|c s]; [done|].
  rewrite str_app_cons. simpl. destruct (is_id_start c); [|done].
  destruct (span_id s) as [run rest] eqn:E.
  by rewrite (span_id_app _ _ _ r0 E).
Qed.

Lemma try_escaped_app r r0 :
  r ≠ "" →
  try_escaped (r +:+ String delimiter r0)
  = extend (String delimiter r0) (try_escaped r).
Proof.
  destruct r as [|c r]; [done|]. intros _.
  rewrite str_app_cons. simpl. by destruct (Ascii.eqb c delimiter).
Qed.

Lemma try_named_app r r0 :
  try_named (r +:+ String delimiter r0)
  = extend (String delimiter r0) (try_named r).
Proof.
  unfold try_named. rewrite match_id_app.
  by destruct (match_id r) as [[name rest]|].
Qed.

Lemma try_braced_app r r0 :
  try_braced (r +:+ String delimiter r0)
  = extend (String delimiter r0) (try_braced r).
Proof.
  destruct r as [|c r1]; [done|]. rewrite str_app_cons.
  destruct (Ascii.eqb_spec c "{") as [->|Hne].
  - cbn [try_braced]. rewrite match_id_app.
    destruct (match_id r1) as [[name [|c2 r2]]|]; [done| |done].
    cbn [fmap option_fmap option_map fst snd]. rewrite str_app_cons.
    destruct (Ascii.eqb_spec c2 "}") as [->|Hne]; [done|].
    revert Hne. clear. destruct c2 as [[] [] [] [] [] [] [] []]; done.
  - revert Hne. clear. destruct c as [[] [] [] [] [] [] [] []]; done.
Qed.

Lemma try_invalid_app r r0 :
  try_invalid (r +:+ String delimiter r0)
  = extend (String delimiter r0) (try_invalid r).
Proof. done. Qed.

(** A match stays the same match when a delimiter follows the string,
    unless the string is a lone delimiter. *)
Lemma match_at_app a mo rest r0 :
  match_at a = Some (mo, rest) →
  a ≠ String delimiter "" →
  match_at (a +:+ String delimiter r0)
  = Some (mo, rest +:+ String delimiter r0).
Proof.
  destruct a as [|c r]; [done|]. rewrite str_app_cons. cbn [match_at].
  destruct (Ascii.eqb_spec c delimiter) as [->|]; [|done].
  intros E Hne. assert (r ≠ "") as Hr by congruence.
  rewrite try_escaped_app, try_named_app, try_braced_app, try_invalid_app
    by done.
  rewrite !or_else_extend, E. done.
Qed.

Lemma match_at_app_None c a r :
  match_at (String c a) = None → match_at (String c a +:+ r) = None.
Proof.
  rewrite str_app_cons. cbn [match_at].
  destruct (Ascii.eqb c delimiter); [|done].
  unfold or_else, try_invalid.
  destruct (try_escaped a), (try_named a), (try_braced a); done.
Qed.

(** Runs of delimiters. *)
Lemma delim_run_app n a r : delim_run n (a +:+ r) = delim_run (delim_run n a) r.
Proof.
  revert n. induction a as [|c a IH]; intros n; [done|].
  rewrite str_app_cons. cbn [delim_run]. apply IH.
Qed.

Lemma delim_run_parity n s :
  Nat.even (delim_run (S (S n)) s) = Nat.even (delim_run n s).
Proof.
  revert n. induction s as [|c s IH]; intros n; [done|].
  cbn [delim_run]. destruct (Ascii.eqb c delimiter); [apply IH|done].
Qed.

Lemma is_id_char_delimiter c : is_id_char c = true → Ascii.eqb c delimiter = false.
Proof.
  destruct (Ascii.eqb_spec c delimiter) as [->|]; [|done].
  by vm_compute.
Qed.

Lemma is_id_start_char c : is_id_start c = true → is_id_char c = true.
Proof. unfold is_id_char. by intros ->. Qed.

Lemma delim_run_span_id s run rest c n :
  span_id s = (run, rest) → is_id_char c = true →
  delim_run n (String c run) = O.
Proof.
  revert run rest c n. induction s as [|c' s IH]; intros run rest c n E Hc;
    cbn [delim_run]; rewrite (is_id_char_delimiter _ Hc); simpl in E.
  - by injection E as <- <-.
  - destruct (is_id_char c') eqn:Hc'; [|by injection E as <- <-].
    destruct (span_id s) as [run' rest'] eqn:E'. injection E as <- <-.
    by apply (IH _ _ _ _ eq_refl).
Qed.

(** After a match other than a lone final delimiter, the parity of the
    final run of delimiters is that of the text after the match. *)
Lemma match_at_run a mo rest :
  match_at a = Some (mo, rest) →
  a ≠ String delimiter "" →
  Nat.even (trailing_delims a) = Nat.even (trailing_delims rest).
Proof.
  intros E Hne. pose proof (match_at_source _ _ _ E) as Ha.
  unfold trailing_delims.
  destruct a as [|c r]; [done|]. cbn [match_at] in E.
  destruct (Ascii.eqb_spec c delimiter) as [->|]; [|done].
  assert (r ≠ "") as Hr by congruence. unfold or_else in E.
  destruct (try_escaped r) as [[mo1 rest1]|] eqn:E1.
  { injection E as <- <-. destruct r as [|c1 r1]; [done|]. simpl in E1.
    destruct (Ascii.eqb_spec c1 delimiter) as [->|]; [|done].
    injection E1 as <- <-. cbn [delim_run]. simpl. apply delim_run_parity. }
  assert (∃ c1 r1, r = String c1 r1 ∧ Ascii.eqb c1 delimiter = false)
    as (c1 & r1 & -> & Hc1).
  { destruct r as [|c1 r1]; [done|]. exists c1, r1. split; [done|].
    simpl in E1. by destruct (Ascii.eqb c1 delimiter). }
  destruct (try_named (String c1 r1)) as [[mo2 rest2]|] eqn:E2.
  { injection E as <- <-. unfold try_named in E2. simpl in E2.
    destruct (is_id_start c1) eqn:Hs; [|done].
    destruct (span_id r1) as [run rest'] eqn:Es. injection E2 as <- <-.
    rewrite (span_id_source _ _ _ Es).
    change (String delimiter (String c1 (run +:+ rest')))
      with (String delimiter (String c1 run) +:+ rest').
    rewrite delim_run_app.
    change (delim_run 0 (String delimiter (String c1 run)))
      with (delim_run 1 (String c1 run)).
    by rewrite (delim_run_span_id _ _ _ c1 1%nat Es (is_id_start_char _ Hs)). }
  destruct (try_braced (String c1 r1)) as [[mo3 rest3]|] eqn:E3.
  { injection E as <- <-. unfold try_braced in E3.
    destruct (Ascii.eqb_spec c1 "{") as [->|Hne'].
    - destruct (match_id r1) as [[name [|c2 r2]]|] eqn:Em; [done| |done].
      destruct (Ascii.eqb_spec c2 "}") as [->|Hne'].
      + injection E3 as <- <-. apply match_id_source in Em as ->.
        cbn [delim_run]. simpl. rewrite delim_run_app. done.
      + exfalso. revert E3 Hne'. clear.
        destruct c2 as [[] [] [] [] [] [] [] []]; done.
    - exfalso. revert E3 Hne'. clear.
      destruct c1 as [[] [] [] [] [] [] [] []]; done. }
  unfold try_invalid in E. injection E as <- <-.
  cbn [delim_run]. simpl. by rewrite Hc1.
Qed.

(** The scan of [a] followed by a delimiter and more text is the scan of
    [a] followed by the scan of the rest. *)
Lemma sub_app_delim (repl : match_object → string) a r0 :
  Nat.even (trailing_delims a) = true →
  sub repl (a +:+ String delimiter r0)
  = sub repl a +:+ sub repl (String delimiter r0).
Proof.
  induction a as [|a mo rest E IH|c a E IH] using scan_ind; intros Heven.
  - done.
  - assert (a ≠ String delimiter "") as Hne by (by intros ->).
    rewrite (sub_match _ _ _ _ (match_at_app _ _ _ r0 E Hne)).
    rewrite (sub_match _ _ _ _ E), str_app_assoc. f_equal. apply IH.
    by rewrite <-(match_at_run _ _ _ E Hne).
  - pose proof (match_at_app_None _ _ (String delimiter r0) E) as E'.
    rewrite str_app_cons in E' |- *.
    rewrite (sub_text _ _ _ E'), (sub_text _ _ _ E), str_app_cons.
    f_equal. apply IH. revert Heven. unfold trailing_delims.
    cbn [delim_run]. cbn [match_at] in E.
    destruct (Ascii.eqb c delimiter); [|done].
    unfold or_else, try_invalid in E.
    destruct (try_escaped a), (try_named a), (try_braced a); done.
Qed.
(** The same for the segments: the scan of the whole is the scan of [a]
    followed by the scan of the rest. *)
Lemma scan_app_delim a r0 :
  Nat.even (trailing_delims a) = true →
  scan (a +:+ String delimiter r0) = scan a ++ scan (String delimiter r0).
Proof.
  induction a as [|a mo rest E IH|c a E IH] using scan_ind; intros Heven.
  - done.
  - assert (a ≠ String delimiter "") as Hne by (by intros ->).
    rewrite (scan_match _ _ _ (match_at_app _ _ _ r0 E Hne)).
    rewrite (scan_match _ _ _ E), <-app_comm_cons. f_equal. apply IH.
    by rewrite <-(match_at_run _ _ _ E Hne).
  - pose proof (match_at_app_None _ _ (String delimiter r0) E) as E'.
    rewrite str_app_cons in E' |- *.
    rewrite (scan_text _ _ E'), (scan_text _ _ E), <-app_comm_cons.
    f_equal. apply IH. revert Heven. unfold trailing_delims.
    cbn [delim_run]. cbn [match_at] in E.
    destruct (Ascii.eqb c delimiter); [|done].
    unfold or_else, try_invalid in E.
    destruct (try_escaped a), (try_named a), (try_braced a); done.
Qed.
End composition.

(** ** The parts of build *)

Section builder.
Import DynamicSQLBuilder.

Implicit Types (b : DynamicSQLBuilder.t) (q : parts).

Lemma build_parts_eq q :
  build_parts q = select_clause q :: from_part q ++ p_joins q ++ later_parts q.
Proof.
  unfold build_parts, from_part, later_parts.
  destruct (truthy_str (p_from q)), (p_joins q) as [|j js],
    (truthy_list (p_where q)), (truthy_list (p_group_by q)),
    (truthy_list (p_having q)), (truthy_list (p_order_by q)),
    (p_limit q) as [l|]; try destruct (truthy_str l);
    cbn [truthy_list app]; rewrite <-?app_assoc, ?app_nil_r; reflexivity.
Qed.

(** Every part is a substring of the built query. *)
Lemma str_join_elem (sep x : string) (l : list string) :
  x ∈ l → substring_of x (str_join sep l).
Proof.
  induction l as [|y l IH]; [by intros ?%elem_of_nil|].
  intros [->|Hx]%elem_of_cons.
  - destruct l as [|z l].
    + exists "", "". by rewrite str_app_nil_r.
    + exists "", (sep +:+ str_join sep (z :: l)). done.
  - destruct (IH Hx) as (pre & post & E). destruct l as [|z l].
    + by apply elem_of_nil in Hx.
    + exists (y +:+ sep +:+ pre), post. rewrite str_join_cons, E.
      by rewrite !str_app_assoc.
Qed.

Lemma truthy_list_app {A} (l1 l2 : list A) :
  l2 ≠ [] → truthy_list (l1 ++ l2) = true.
Proof. destruct l1, l2; done. Qed.

(** The mutators other than [from_table] and [reset] leave the source
    table alone, and [reset] clears it. *)
Lemma chain_snoc b ms m : chain b (ms ++ [m]) = invoke (chain b ms) m.
Proof. unfold chain. by rewrite foldl_app. Qed.


Lemma chain_obj_id b ms : obj_id (chain b ms) = obj_id b.
Proof.
  induction ms as [|m ms IH] using rev_ind; [done|].
  rewrite chain_snoc, <-IH. by destruct m.
Qed.
End builder.

(** ** The fluent builder *)

Section builder_claims.
Import DynamicSQLBuilder.

Implicit Types (b : DynamicSQLBuilder.t) (q : parts).

(** [build] writes the HAVING clause from the HAVING sequence of the state:
    the fragments conjoined by AND in sequence order when there is one,
    and no clause when there is none. *)
Lemma build_having_clause q :
  later_parts q =
    (if truthy_list (p_where q)
     then ["WHERE " +:+ str_join " AND " (p_where q)] else [])
    ++ (if truthy_list (p_group_by q)
        then ["GROUP BY " +:+ str_join ", " (p_group_by q)] else [])
    ++ match p_having q with
       | [] => []
       | _ :: _ => ["HAVING " +:+ str_join " AND " (p_having q)]
       end
    ++ (if truthy_list (p_order_by q)
        then ["ORDER BY " +:+ str_join ", " (p_order_by q)] else [])
    ++ (match p_limit q with
        | Some l => if truthy_str l then [l] else []
        | None => []
        end).
Proof. unfold later_parts. by destruct (p_having q). Qed.

(** C2 (the code has no [having] method): whatever chain of the builder's
    operations is applied to a new builder, its HAVING sequence is empty;
    the clause that [build] can write is out of reach of every caller of
    the class's methods. *)
Theorem having_never_accumulates (id : nat) (ms : list mutator) :
  p_having (query_parts (chain (new id) ms)) = [].
Proof.
  induction ms as [|m ms IH] using rev_ind; [done|].
  rewrite chain_snoc. by destruct m.
Qed.

(** C4: after [where(c1)], [where(c2)], [where(c3)] on a builder that held
    no condition, the built query contains [WHERE c1 AND c2 AND c3]. *)
Theorem where_conjoined_in_call_order b (c1 c2 c3 : string) :
  p_where (query_parts b) = [] →
  substring_of ("WHERE " +:+ c1 +:+ " AND " +:+ c2 +:+ " AND " +:+ c3)
    (build (where_ (where_ (where_ b c1) c2) c3)).
Proof.
  intros Hw. unfold build. apply str_join_elem.
  rewrite build_parts_eq. unfold later_parts. cbn [where_ query_parts p_where].
  rewrite Hw. cbn [app truthy_list str_join].
  rewrite elem_of_cons, !elem_of_app, elem_of_cons. auto.
Qed.

Lemma where_conjoined_in_call_order_witness :
  substring_of
    ("WHERE " +:+ "active = 1" +:+ " AND " +:+ "" +:+ " AND " +:+ "age > 18")
    (build (where_ (where_ (where_ (from_table (new 0) "users" None)
                                "active = 1") "") "age > 18")).
Proof. apply where_conjoined_in_call_order. reflexivity. Defined.

(** The conditions are conjoined in call order whatever the builder held
    before: the new ones follow the old ones. *)
Lemma where_appends b (c1 c2 c3 : string) :
  substring_of
    ("WHERE " +:+ str_join " AND " (p_where (query_parts b) ++ [c1; c2; c3]))
    (build (where_ (where_ (where_ b c1) c2) c3)).
Proof.
  destruct b as [id [sel frm jns whr grp hav ord lim]].
  unfold build. apply str_join_elem.
  rewrite build_parts_eq. unfold later_parts.
  cbn [where_ query_parts p_where p_joins p_from p_select p_group_by
       p_having p_order_by p_limit obj_id].
  rewrite <-!app_assoc. cbn [app].
  rewrite truthy_list_app by done.
  apply elem_of_cons; right. rewrite !elem_of_app. right; right; left.
  by apply elem_of_cons; left.
Qed.


Lemma limit_without_offset b (n : Z) :
  p_limit (query_parts (limit b n None)) = Some ("LIMIT " +:+ str_of_int n).
Proof. done. Qed.

Lemma limit_replaces b (n n' : Z) (o o' : option Z) :
  limit (limit b n o) n' o' = limit b n' o'.
Proof. done. Qed.

(** The stored limit is the last part of the built query. *)
Lemma build_limit_last b (l : string) :
  p_limit (query_parts b) = Some l → truthy_str l = true →
  ∃ front, build_parts (query_parts b) = front ++ [l].
Proof.
  intros Hl Ht. rewrite build_parts_eq. unfold later_parts. rewrite Hl, Ht.
  rewrite !app_assoc, app_comm_cons. by eexists.
Qed.

(** C5 (offset zero): [limit(n, 0)], with the offset given, stores and
    builds [LIMIT n] without OFFSET, as the truthiness test of the offset
    takes zero for an offset that was not given. *)
Theorem limit_zero_offset_dropped b (n : Z) :
  p_limit (query_parts (limit b n (Some 0)))
  = Some ("LIMIT " +:+ str_of_int n)
  ∧ build (limit (new 0) 10 (Some 0)) = "SELECT * LIMIT 10".
Proof. done. Qed.

Lemma str_join_head (sep x : string) (l : list string) :
  str_join sep (x :: l)
  = x +:+ match l with [] => "" | _ :: _ => sep +:+ str_join sep l end.
Proof. destruct l; [by rewrite str_app_nil_r|done]. Qed.

(** The joined text of a list is empty only for the empty list and for the
    list that holds one empty string. *)
Lemma str_join_empty (sep : string) (l : list string) :
  sep ≠ "" → str_join sep l = "" → l = [] ∨ l = [""].
Proof.
  intros Hsep. destruct l as [|x [|y l]];
    [by left|by cbn [str_join]; intros ->; right|].
  rewrite str_join_cons. destruct x as [|c x]; [|done].
  destruct sep; done.
Qed.

(** What the other mutators store: the fragment as given, after the
    fragments already there. *)
Lemma mutators_append b (columns : list string) (c d : string) :
  p_select (query_parts (select b columns))
    = p_select (query_parts b) ++ columns
  ∧ p_where (query_parts (where_ b c)) = p_where (query_parts b) ++ [c]
  ∧ p_group_by (query_parts (group_by b columns))
    = p_group_by (query_parts b) ++ columns
  ∧ p_order_by (query_parts (order_by b c d))
    = p_order_by (query_parts b) ++ [c +:+ " " +:+ d]
  ∧ p_from (query_parts (from_table b c None)) = c.
Proof. done. Qed.




(** The star is written exactly when the joined text of the select list is
    empty. *)
Lemma select_clause_star q :
  p_select q = [] ∨ p_select q = [""] → select_clause q = "SELECT *".
Proof. unfold select_clause. by intros [-> | ->]. Qed.

(** [reset] gives back the receiver in the state of a new builder. *)
Lemma reset_new b : reset b = new (obj_id b).
Proof. done. Qed.

(** C8: after any chain of mutators, [reset] returns the same builder,
    back in the empty initial state: [build] then gives [SELECT *], as it
    does for a new builder. *)
Theorem reset_restores_initial_state (id id' : nat) (ms : list mutator) :
  build (reset (chain (new id) ms)) = "SELECT *"
  ∧ build (reset (chain (new id) ms)) = build (new id')
  ∧ query_parts (reset (chain (new id) ms)) = query_parts (new id')
  ∧ obj_id (reset (chain (new id) ms)) = obj_id (chain (new id) ms)
  ∧ reset (chain (new id) ms) = new id.
Proof.
  rewrite reset_new, chain_obj_id. done.
Qed.

(** [join] appends one clause, after the clauses already there. *)
Lemma join_appends b (table on_condition join_type : string)
    (alias : option string) :
  p_joins (query_parts (join b table on_condition join_type alias))
  = p_joins (query_parts b)
      ++ [join_type +:+ " JOIN " +:+ table_ref table alias +:+ " ON "
            +:+ on_condition].
Proof. done. Qed.


End builder_claims.

(** ** The template engine *)

Section engine_claims.
Import Template SQLTemplateEngine.

Implicit Types (self : SQLTemplateEngine.t) (variables : gmap string string).

(** C1: for a name that is not registered, [generate_query] raises the
    error of the unknown template and returns no string, and it leaves
    the registry and the variables as they were. *)
Theorem generate_query_unknown_template self (template_name : string) variables :
  templates self !! template_name = None →
  outcome (generate_query self template_name variables)
    = Raise (ValueError ("Template '" +:+ template_name +:+ "' not found"))
  ∧ (∀ query : string,
       outcome (generate_query self template_name variables) ≠ Return query)
  ∧ self_after (generate_query self template_name variables) = self
  ∧ variables_after (generate_query self template_name variables) = variables.
Proof. unfold generate_query. by intros ->. Qed.

Lemma generate_query_unknown_template_witness :
  outcome (generate_query __init__ "select_all" {[ "table" := "users" ]})
    = Raise (ValueError ("Template '" +:+ "select_all" +:+ "' not found"))
  ∧ (∀ query : string,
       outcome (generate_query __init__ "select_all" {[ "table" := "users" ]})
       ≠ Return query)
  ∧ self_after (generate_query __init__ "select_all" {[ "table" := "users" ]})
    = __init__
  ∧ variables_after
      (generate_query __init__ "select_all" {[ "table" := "users" ]})
    = {[ "table" := "users" ]}.
Proof. apply generate_query_unknown_template. vm_compute. reflexivity. Defined.

(** A registered template is rendered and nothing is raised; the registry
    and the variables are left as they were. *)
Lemma generate_query_registered self (template_name : string) variables
    (tpl : Template.t) :
  templates self !! template_name = Some tpl →
  generate_query self template_name variables
  = Call (Return (str_concat (replace (convert variables)
                                <$> scan (template tpl))))
      self variables.
Proof.
  unfold generate_query, safe_substitute. intros ->. by rewrite sub_scan.
Qed.

(** The text of a placeholder is [$name] or [${name}]. *)
Lemma named_group_source (mo : match_object) (named : string) :
  named_group mo = Some named →
  group mo = "$" +:+ named ∨ group mo = "${" +:+ named +:+ "}".
Proof. destruct mo; intros [= <-]; [by left|by right]. Qed.

(** C3: a placeholder of a registered template whose name is not a key of
    the variables is written to the output as it stands in the template,
    after the rendering of what precedes it and before the rendering of
    what follows it, and the call returns. *)
Theorem absent_placeholder_kept self (template_name : string) variables
    (tpl : Template.t) (pre post : list segment) (mo : match_object)
    (named : string) :
  templates self !! template_name = Some tpl →
  scan (template tpl) = pre ++ Match mo :: post →
  named_group mo = Some named →
  variables !! named = None →
  template tpl
    = str_concat (source <$> pre) +:+ group mo +:+ str_concat (source <$> post)
  ∧ outcome (generate_query self template_name variables)
    = Return (str_concat (replace (convert variables) <$> pre)
                +:+ group mo
                +:+ str_concat (replace (convert variables) <$> post)).
Proof.
  intros Ht Hscan Hnamed Hv. split.
  - rewrite <-(scan_source (template tpl)), Hscan, fmap_app, str_concat_app.
    done.
  - rewrite (generate_query_registered _ _ _ _ Ht), Hscan.
    cbn [outcome]. rewrite fmap_app, str_concat_app. do 2 f_equal.
    cbn [fmap list_fmap str_concat replace]. f_equal.
    unfold convert. by rewrite Hnamed, Hv.
Qed.

Lemma absent_placeholder_kept_witness :
  template (Template "a$x ${y}!")
    = str_concat (source <$> [Text "a"; Match (Named "x"); Text " "])
        +:+ group (Braced "y") +:+ str_concat (source <$> [Text "!"])
  ∧ outcome (generate_query (add_template __init__ "t" "a$x ${y}!") "t"
               {[ "x" := "1" ]})
    = Return (str_concat (replace (convert {[ "x" := "1" ]})
                            <$> [Text "a"; Match (Named "x"); Text " "])
                +:+ group (Braced "y")
                +:+ str_concat (replace (convert {[ "x" := "1" ]})
                                  <$> [Text "!"])).
Proof.
  apply (absent_placeholder_kept
           (add_template __init__ "t" "a$x ${y}!") "t" {[ "x" := "1" ]}
           (Template "a$x ${y}!") _ _ (Braced "y") "y").
  - vm_compute. reflexivity.
  - vm_compute. reflexivity.
  - reflexivity.
  - vm_compute. reflexivity.
Defined.

(** C7: the value of a placeholder is written to the output as it is, after
    the rendering of what precedes the placeholder and before the
    rendering of what follows it; the output is put together segment by
    segment, left to right, and no segment is the result of scanning a
    value. *)
Theorem substituted_value_literal self (template_name : string) variables
    (tpl : Template.t) (pre post : list segment) (mo : match_object)
    (named value : string) :
  templates self !! template_name = Some tpl →
  scan (template tpl) = pre ++ Match mo :: post →
  named_group mo = Some named →
  variables !! named = Some value →
  outcome (generate_query self template_name variables)
  = Return (str_concat (replace (convert variables) <$> pre)
              +:+ value
              +:+ str_concat (replace (convert variables) <$> post)).
Proof.
  intros Ht Hscan Hnamed Hv.
  rewrite (generate_query_registered _ _ _ _ Ht), Hscan.
  cbn [outcome]. rewrite fmap_app, str_concat_app. do 2 f_equal.
  cbn [fmap list_fmap str_concat replace]. f_equal.
  unfold convert. by rewrite Hnamed, Hv.
Qed.

Lemma substituted_value_literal_witness :
  outcome (generate_query (add_template __init__ "t" "${a}b $b") "t"
             {[ "a" := "$b ${b} $$"; "b" := "X" ]})
  = Return (str_concat
              (replace (convert {[ "a" := "$b ${b} $$"; "b" := "X" ]}) <$> [])
              +:+ "$b ${b} $$"
              +:+ str_concat
                    (replace (convert {[ "a" := "$b ${b} $$"; "b" := "X" ]})
                       <$> [Text "b"; Text " "; Match (Named "b")])).
Proof.
  apply (substituted_value_literal
           (add_template __init__ "t" "${a}b $b") "t"
           {[ "a" := "$b ${b} $$"; "b" := "X" ]}
           (Template "${a}b $b") []
           [Text "b"; Text " "; Match (Named "b")] (Braced "a") "a"
           "$b ${b} $$").
  - vm_compute. reflexivity.
  - vm_compute. reflexivity.
  - reflexivity.
  - vm_compute. reflexivity.
Defined.

(** The value of [a] holds the placeholder syntax of [b] and an escape;
    they reach the output as they are. *)
Example value_not_rescanned :
  outcome (generate_query (add_template __init__ "t" "${a}b $b") "t"
             {[ "a" := "$b ${b} $$"; "b" := "X" ]})
  = Return "$b ${b} $$b X".
Proof. vm_compute. reflexivity. Qed.

(** C9: each occurrence of [$$] in the pattern, the occurrences being taken
    left to right without overlap (in a run of delimiters an occurrence
    starts after an even number of them, none included), is an escape of
    the scan and no placeholder, and it is rendered as one [$], between
    the rendering of the text before it and the rendering of the text
    after it, whatever the keys of the variables. *)
Theorem escaped_delimiter_rendered self (template_name : string) variables
    (tpl : Template.t) (a b : string) :
  templates self !! template_name = Some tpl →
  template tpl = a +:+ "$$" +:+ b →
  Nat.even (trailing_delims a) = true →
  scan (template tpl) = scan a ++ Match Escaped :: scan b
  ∧ named_group Escaped = None
  ∧ outcome (generate_query self template_name variables)
    = Return (safe_substitute (Template a) variables
                +:+ "$"
                +:+ safe_substitute (Template b) variables).
Proof.
  intros Ht Htpl Heven. split; [|split; [done|]].
  - rewrite Htpl.
    change (a +:+ "$$" +:+ b)
      with (a +:+ String delimiter (String delimiter b)).
    rewrite (scan_app_delim _ _ Heven). f_equal.
    by rewrite (scan_match _ Escaped b).
  - unfold generate_query, safe_substitute.
    rewrite Ht, Htpl. cbn [outcome template]. f_equal.
    change (a +:+ "$$" +:+ b)
      with (a +:+ String delimiter (String delimiter b)).
    rewrite (sub_app_delim _ _ _ Heven). f_equal.
    by rewrite (sub_match _ _ Escaped b).
Qed.

Lemma escaped_delimiter_rendered_witness :
  scan (template (Template "$$$$$$x"))
    = scan "$$" ++ Match Escaped :: scan "$$x"
  ∧ named_group Escaped = None
  ∧ outcome (generate_query (add_template __init__ "price" "$$$$$$x") "price"
               {[ "x" := "V" ]})
    = Return (safe_substitute (Template "$$") {[ "x" := "V" ]}
                +:+ "$"
                +:+ safe_substitute (Template "$$x") {[ "x" := "V" ]}).
Proof.
  apply (escaped_delimiter_rendered
           (add_template __init__ "price" "$$$$$$x") "price" {[ "x" := "V" ]}
           (Template "$$$$$$x") "$$" "$$x").
  - vm_compute. reflexivity.
  - reflexivity.
  - reflexivity.
Defined.

(** In [$$$x] the first two delimiters are the escape and the third starts
    the placeholder [$x]: the rendering is one [$] and the value of [x]. *)
Example escape_then_placeholder :
  scan "$$$x" = [Match Escaped; Match (Named "x")]
  ∧ outcome (generate_query (add_template __init__ "price" "$$$x") "price"
               {[ "x" := "V" ]})
    = Return "$V".
Proof. vm_compute. by split. Qed.
End engine_claims.

(** * Further properties *)

(** ** Rendering of templates *)

Section rendering.
Import Template SQLTemplateEngine.

Implicit Types (self : SQLTemplateEngine.t) (variables : gmap string string).

Lemma has_delim_app (a b : string) :
  has_delim (a +:+ b) = has_delim a || has_delim b.
Proof.
  induction a as [|c a IH]; [done|].
  rewrite str_app_cons. cbn [has_delim]. by rewrite IH, orb_assoc.
Qed.

Lemma has_escape_cons (c : ascii) (s : string) :
  has_escape (String c s) = false → has_escape s = false.
Proof.
  destruct s as [|c' s]; [done|]. cbn [has_escape].
  by intros [_ ?]%orb_false_iff.
Qed.

Lemma has_escape_app_r (a b : string) :
  has_escape (a +:+ b) = false → has_escape b = false.
Proof.
  induction a as [|c a IH]; [done|].
  rewrite str_app_cons. intros H%has_escape_cons. auto.
Qed.

Lemma placeholder_names_match (s : string) (mo : match_object) (rest : string) :
  match_at s = Some (mo, rest) →
  placeholder_names s
  = match named_group mo with
    | Some named => named :: placeholder_names rest
    | None => placeholder_names rest
    end.
Proof.
  intros E. unfold placeholder_names. rewrite (scan_match _ _ _ E). done.
Qed.

Lemma placeholder_names_text (c : ascii) (s : string) :
  match_at (String c s) = None →
  placeholder_names (String c s) = placeholder_names s.
Proof.
  intros E. unfold placeholder_names. rewrite (scan_text _ _ E). done.
Qed.

(** A pattern none of whose placeholders is a key, and which holds no
    escape, is its own rendering. *)
Lemma sub_no_key variables (s : string) :
  Forall (λ named, variables !! named = None) (placeholder_names s) →
  has_escape s = false →
  sub (convert variables) s = s.
Proof.
  induction s as [|s mo rest E IH|c s E IH] using scan_ind; intros Hk He.
  - done.
  - rewrite (sub_match _ _ _ _ E).
    rewrite (placeholder_names_match _ _ _ E) in Hk.
    pose proof (match_at_source _ _ _ E) as Hs. rewrite Hs in He |- *.
    f_equal; [|apply IH; [|by eapply has_escape_app_r]].
    + unfold convert. destruct mo; cbn [named_group] in *; try done.
      * apply Forall_cons in Hk as [-> _]. done.
      * apply Forall_cons in Hk as [-> _]. done.
    + destruct (named_group mo); [by apply Forall_cons in Hk as [_ ?]|done].
  - rewrite (sub_text _ _ _ E). rewrite (placeholder_names_text _ _ E) in Hk.
    f_equal. apply IH; [done|]. by eapply has_escape_cons.
Qed.

Lemma str_concat_ext (f g : segment → string) (l : list segment) :
  (∀ sg, sg ∈ l → f sg = g sg) →
  str_concat (f <$> l) = str_concat (g <$> l).
Proof.
  induction l as [|sg l IH]; intros H; [done|].
  cbn [fmap list_fmap str_concat].
  change (list_fmap _ _ f l) with (f <$> l).
  change (list_fmap _ _ g l) with (g <$> l).
  rewrite (H sg) by (by left). rewrite IH; [done|].
  intros sg' Hsg'. apply H. by right.
Qed.

Lemma has_delim_str_concat (l : list string) :
  Forall (λ x, has_delim x = false) l → has_delim (str_concat l) = false.
Proof.
  induction 1 as [|x l Hx _ IH]; [done|].
  cbn [str_concat]. by rewrite has_delim_app, Hx, IH.
Qed.

(** A copied character is never the delimiter. *)
Lemma scan_text_not_delim (s : string) (c : ascii) :
  Text c ∈ scan s → Ascii.eqb c delimiter = false.
Proof.
  induction s as [|s mo rest E IH|c' s E IH] using scan_ind.
  - by intros ?%elem_of_nil.
  - rewrite (scan_match _ _ _ E). intros [?|?]%elem_of_cons; [done|auto].
  - rewrite (scan_text _ _ E). intros [[= ->]|?]%elem_of_cons; [|auto].
    cbn [match_at] in E. destruct (Ascii.eqb c' delimiter); [|done].
    unfold or_else, try_invalid in E.
    destruct (try_escaped s), (try_named s), (try_braced s); done.
Qed.

(** [add_template] registers a pattern: the name then renders that
    pattern, every other name renders as before, and registering a name
    again replaces its pattern. *)
Theorem add_template_registers self (name pattern : string) variables :
  outcome (generate_query (add_template self name pattern) name variables)
    = Return (safe_substitute (Template pattern) variables)
  ∧ (∀ other : string, other ≠ name →
       outcome (generate_query (add_template self name pattern) other variables)
       = outcome (generate_query self other variables))
  ∧ (∀ pattern' : string,
       add_template (add_template self name pattern') name pattern
       = add_template self name pattern).
Proof.
  split; [|split].
  - unfold generate_query, add_template. cbn [templates].
    by rewrite lookup_insert_eq.
  - intros other Hne. unfold generate_query, add_template. cbn [templates].
    rewrite lookup_insert_ne by done.
    by destruct (templates self !! other).
  - intros pattern'. unfold add_template. cbn [templates].
    by rewrite insert_insert_eq.
Qed.

(** A new engine knows the fourteen built-in names and no other: a query
    is returned for exactly these names. *)
Theorem builtin_names_registered (name : string) variables :
  (∃ query, outcome (generate_query __init__ name variables) = Return query)
  ↔ name ∈ [ "basic_select"; "filtered_select"; "joined_select";
             "aggregated_select"; "paginated_select"; "basic_insert";
             "bulk_insert"; "insert_select"; "basic_update"; "joined_update";
             "basic_delete"; "joined_delete"; "create_table"; "create_index" ].
Proof.
  change [ "basic_select"; "filtered_select"; "joined_select";
           "aggregated_select"; "paginated_select"; "basic_insert";
           "bulk_insert"; "insert_select"; "basic_update"; "joined_update";
           "basic_delete"; "joined_delete"; "create_table"; "create_index" ]
    with (builtin_templates.*1).
  unfold generate_query, __init__. cbn [templates].
  destruct (list_to_map builtin_templates !! name) as [tpl|] eqn:E.
  - split; [|by eauto]. intros _.
    destruct (decide (name ∈ builtin_templates.*1)) as [|Hn]; [done|].
    apply (not_elem_of_list_to_map (M := gmap string)) in Hn. congruence.
  - split; [by intros [? [=]]|]. intros Hin.
    by apply (not_elem_of_list_to_map_2 (M := gmap string)) in E.
Qed.

(** A pattern none of whose placeholders is a key of the variables, and
    which holds no [$$], is returned as it is; so is, for any variables, a
    pattern without delimiter. *)
Theorem pattern_without_keys_unchanged self (template_name : string)
    variables (tpl : Template.t) :
  templates self !! template_name = Some tpl →
  Forall (λ named, variables !! named = None)
    (placeholder_names (template tpl)) →
  has_escape (template tpl) = false →
  outcome (generate_query self template_name variables)
  = Return (template tpl).
Proof.
  intros Ht Hk He. unfold generate_query, safe_substitute. rewrite Ht.
  cbn [outcome]. by rewrite sub_no_key.
Qed.

Lemma pattern_without_keys_unchanged_witness :
  outcome (generate_query __init__ "basic_delete" {[ "columns" := "id" ]})
  = Return (template (Template "DELETE FROM $table WHERE $conditions")).
Proof.
  apply (pattern_without_keys_unchanged __init__ "basic_delete"
           {[ "columns" := "id" ]}
           (Template "DELETE FROM $table WHERE $conditions")).
  - vm_compute. reflexivity.
  - vm_compute. repeat constructor.
  - reflexivity.
Defined.

(** Only the values of the placeholder names of the pattern matter: two
    dicts that agree on them give the same query. *)
Theorem other_keys_ignored self (template_name : string)
    (variables variables' : gmap string string) (tpl : Template.t) :
  templates self !! template_name = Some tpl →
  (∀ named, named ∈ placeholder_names (template tpl) →
     variables !! named = variables' !! named) →
  outcome (generate_query self template_name variables)
  = outcome (generate_query self template_name variables').
Proof.
  intros Ht Hagree.
  rewrite !(generate_query_registered _ _ _ _ Ht). cbn [outcome]. f_equal.
  apply str_concat_ext. intros [c|mo] Hsg; [done|].
  cbn [replace]. unfold convert.
  destruct (named_group mo) as [named|] eqn:Hn; [|done].
  rewrite Hagree; [done|]. unfold placeholder_names.
  apply list_elem_of_omap. by exists (Match mo).
Qed.

Lemma other_keys_ignored_witness :
  outcome (generate_query __init__ "create_table"
             {[ "table" := "t"; "column_definitions" := "id INT" ]})
  = outcome (generate_query __init__ "create_table"
               {[ "table" := "t"; "column_definitions" := "id INT";
                  "columns" := "unused" ]}).
Proof.
  apply (other_keys_ignored __init__ "create_table" _ _
           (Template "CREATE TABLE $table ($column_definitions)")).
  - vm_compute. reflexivity.
  - intros named Hin. vm_compute in Hin.
    apply elem_of_cons in Hin as [->|Hin]; [vm_compute; reflexivity|].
    apply elem_of_cons in Hin as [->|Hin]; [vm_compute; reflexivity|].
    by apply elem_of_nil in Hin.
Defined.

(** When every delimiter of the pattern starts a placeholder, every
    placeholder name is a key, and no value holds a delimiter, the query
    holds no delimiter: nothing is left to substitute. *)
Theorem full_substitution_leaves_no_delimiter self (template_name : string)
    variables (tpl : Template.t) :
  templates self !! template_name = Some tpl →
  Forall (λ sg, sg ≠ Match Escaped ∧ sg ≠ Match Invalid)
    (scan (template tpl)) →
  Forall (λ named, ∃ value,
            variables !! named = Some value ∧ has_delim value = false)
    (placeholder_names (template tpl)) →
  ∃ query,
    outcome (generate_query self template_name variables) = Return query
    ∧ has_delim query = false.
Proof.
  intros Ht Hwf Hkeys. rewrite (generate_query_registered _ _ _ _ Ht).
  eexists. split; [done|]. apply has_delim_str_concat.
  apply Forall_fmap, Forall_forall. intros [c|mo] Hsg; cbn [compose replace].
  - cbn [has_delim]. by rewrite (scan_text_not_delim _ _ Hsg).
  - pose proof (proj1 (Forall_forall _ _) Hwf) as Hwf'.
    pose proof (proj1 (Forall_forall _ _) Hkeys) as Hkeys'.
    clear Hwf Hkeys. rename Hwf' into Hwf, Hkeys' into Hkeys.
    destruct (Hwf _ Hsg) as [Hesc Hinv]. unfold convert.
    destruct (named_group mo) as [named|] eqn:Hn; [|by destruct mo].
    destruct (Hkeys named) as (value & -> & Hvalue); [|done].
    unfold placeholder_names. apply list_elem_of_omap. by exists (Match mo).
Qed.

Lemma full_substitution_leaves_no_delimiter_witness :
  ∃ query,
    outcome (generate_query __init__ "basic_select"
               {[ "columns" := "id, name"; "table" := "users" ]})
    = Return query
    ∧ has_delim query = false.
Proof.
  apply (full_substitution_leaves_no_delimiter __init__ "basic_select" _
           (Template "SELECT $columns FROM $table")).
  - vm_compute. reflexivity.
  - vm_compute. repeat constructor; discriminate.
  - vm_compute. repeat constructor; eexists; split; reflexivity.
Defined.

(** A pattern cut in front of a delimiter, after an even number of
    delimiters, is rendered piece by piece. *)
Theorem rendering_splits_before_delimiter variables (a r : string) :
  Nat.even (trailing_delims a) = true →
  safe_substitute (Template (a +:+ "$" +:+ r)) variables
  = safe_substitute (Template a) variables
      +:+ safe_substitute (Template ("$" +:+ r)) variables.
Proof. intros Heven. exact (sub_app_delim (convert variables) a r Heven). Qed.

Lemma rendering_splits_before_delimiter_witness :
  safe_substitute (Template ("SELECT $$" +:+ "$" +:+ "price FROM $table"))
    {[ "price" := "cost" ]}
  = safe_substitute (Template "SELECT $$") {[ "price" := "cost" ]}
      +:+ safe_substitute (Template ("$" +:+ "price FROM $table"))
            {[ "price" := "cost" ]}.
Proof.
  apply (rendering_splits_before_delimiter {[ "price" := "cost" ]}
           "SELECT $$" "price FROM $table").
  reflexivity.
Defined.

(** The built-in [basic_select]: with the keys [columns] and [table], and
    whatever other keys, the query is SELECT, the columns, FROM, the
    table. *)
Theorem basic_select_rendered variables (columns table : string) :
  variables !! "columns" = Some columns →
  variables !! "table" = Some table →
  outcome (generate_query __init__ "basic_select" variables)
  = Return ("SELECT " +:+ columns +:+ " FROM " +:+ table).
Proof.
  intros Hc Ht.
  rewrite (generate_query_registered _ _ _
             (Template "SELECT $columns FROM $table"))
    by (vm_compute; reflexivity).
  cbn [outcome template]. f_equal.
  set (sc := scan _). vm_compute in sc. subst sc.
  cbn [fmap list_fmap replace str_concat]. unfold convert.
  cbn [named_group]. rewrite Hc, Ht. by rewrite str_app_nil_r.
Qed.

Lemma basic_select_rendered_witness :
  outcome (generate_query __init__ "basic_select"
             {[ "columns" := "id, name"; "table" := "users" ]})
  = Return ("SELECT " +:+ "id, name" +:+ " FROM " +:+ "users").
Proof.
  apply basic_select_rendered; vm_compute; reflexivity.
Defined.
End rendering.

(** ** Chains of builder calls *)

Section chains.
Import DynamicSQLBuilder.

Implicit Types (b : DynamicSQLBuilder.t) (q : parts) (ms : list mutator).

Lemma limit_stores b (n : Z) (o : option Z) :
  p_limit (query_parts (limit b n o)) = Some (limit_text n o).
Proof.
  cbn [limit query_parts p_limit]. unfold limit_text. f_equal.
  destruct o as [m|]; [destruct (truthy_int m)|];
    by rewrite ?str_app_assoc, ?str_app_nil_r.
Qed.

Lemma substring_of_trans (x y z : string) :
  substring_of x y → substring_of y z → substring_of x z.
Proof.
  intros (p1 & q1 & ->) (p2 & q2 & ->). exists (p2 +:+ p1), (q1 +:+ q2).
  by rewrite !str_app_assoc.
Qed.

Lemma substring_of_suffix (x p s : string) :
  substring_of x s → substring_of x (p +:+ s).
Proof.
  intros (p1 & q1 & ->). exists (p +:+ p1), q1. by rewrite !str_app_assoc.
Qed.

Lemma substring_of_empty (s : string) : substring_of "" s.
Proof. by exists "", s. Qed.

Lemma substring_of_refl (s : string) : substring_of s s.
Proof. exists "", "". by rewrite str_app_nil_r. Qed.

(** The query is a SELECT statement whatever the state of the builder. *)
Theorem build_starts_with_select b : ∃ rest, build b = "SELECT " +:+ rest.
Proof.
  unfold build. rewrite build_parts_eq, str_join_head. unfold select_clause.
  eexists. by rewrite str_app_assoc.
Qed.

(** After a chain of calls without [reset] on a new builder, each
    accumulating clause holds what the calls of that clause passed, in
    call order, whatever other calls came in between. *)
Theorem chain_accumulates_per_clause (id : nat) ms :
  forallb (λ m, negb (is_reset m)) ms = true →
  p_select (query_parts (chain (new id) ms)) = flat_map select_args ms
  ∧ p_joins (query_parts (chain (new id) ms)) = flat_map join_args ms
  ∧ p_where (query_parts (chain (new id) ms)) = flat_map where_args ms
  ∧ p_group_by (query_parts (chain (new id) ms)) = flat_map group_by_args ms
  ∧ p_order_by (query_parts (chain (new id) ms)) = flat_map order_by_args ms.
Proof.
  induction ms as [|m ms IH] using rev_ind; [done|].
  rewrite forallb_app, andb_true_iff. intros [Hms Hm].
  destruct (IH Hms) as (Hs & Hj & Hw & Hg & Ho).
  rewrite chain_snoc, !flat_map_app. cbn [flat_map].
  destruct m; try done;
    cbn [invoke select from_table join where_ group_by order_by limit
         query_parts p_select p_joins p_where p_group_by p_order_by
         select_args join_args where_args group_by_args order_by_args];
    rewrite Hs, Hj, Hw, Hg, Ho, ?app_nil_r; done.
Qed.

Lemma chain_accumulates_per_clause_witness :
  p_select (query_parts (chain (new 0)
      [Where "a"; Select ["x"]; Where "b"; Limit 1 None; Select ["y"; "z"]]))
    = flat_map select_args
        [Where "a"; Select ["x"]; Where "b"; Limit 1 None; Select ["y"; "z"]]
  ∧ p_joins (query_parts (chain (new 0)
      [Where "a"; Select ["x"]; Where "b"; Limit 1 None; Select ["y"; "z"]]))
    = flat_map join_args
        [Where "a"; Select ["x"]; Where "b"; Limit 1 None; Select ["y"; "z"]]
  ∧ p_where (query_parts (chain (new 0)
      [Where "a"; Select ["x"]; Where "b"; Limit 1 None; Select ["y"; "z"]]))
    = flat_map where_args
        [Where "a"; Select ["x"]; Where "b"; Limit 1 None; Select ["y"; "z"]]
  ∧ p_group_by (query_parts (chain (new 0)
      [Where "a"; Select ["x"]; Where "b"; Limit 1 None; Select ["y"; "z"]]))
    = flat_map group_by_args
        [Where "a"; Select ["x"]; Where "b"; Limit 1 None; Select ["y"; "z"]]
  ∧ p_order_by (query_parts (chain (new 0)
      [Where "a"; Select ["x"]; Where "b"; Limit 1 None; Select ["y"; "z"]]))
    = flat_map order_by_args
        [Where "a"; Select ["x"]; Where "b"; Limit 1 None; Select ["y"; "z"]].
Proof. apply chain_accumulates_per_clause. reflexivity. Defined.

(** After such a chain, the source table and the limit are those of the
    last [from_table] and of the last [limit] call, or unset when there
    was none. *)
Theorem chain_last_call_wins (id : nat) ms :
  forallb (λ m, negb (is_reset m)) ms = true →
  p_from (query_parts (chain (new id) ms))
    = default "" (last (flat_map from_args ms))
  ∧ p_limit (query_parts (chain (new id) ms)) = last (flat_map limit_args ms).
Proof.
  induction ms as [|m ms IH] using rev_ind; [done|].
  rewrite forallb_app, andb_true_iff. intros [Hms Hm].
  destruct (IH Hms) as (Hf & Hl).
  rewrite chain_snoc, !flat_map_app. cbn [flat_map].
  destruct m; try done;
    try (cbn [invoke select join where_ group_by order_by
              query_parts p_from p_limit from_args limit_args];
         rewrite Hf, Hl, ?app_nil_r; done).
  - cbn [invoke from_args limit_args]. rewrite !app_nil_r, last_snoc.
    cbn [from_table query_parts p_from p_limit]. by rewrite Hl.
  - cbn [invoke from_args limit_args]. rewrite !app_nil_r, last_snoc.
    rewrite limit_stores. cbn [limit query_parts p_from]. by rewrite Hf.
Qed.

Lemma chain_last_call_wins_witness :
  p_from (query_parts (chain (new 0)
      [FromTable "a" None; Limit 5 (Some 10); FromTable "b" (Some "x");
       Limit 7 None]))
    = default "" (last (flat_map from_args
        [FromTable "a" None; Limit 5 (Some 10); FromTable "b" (Some "x");
         Limit 7 None]))
  ∧ p_limit (query_parts (chain (new 0)
      [FromTable "a" None; Limit 5 (Some 10); FromTable "b" (Some "x");
       Limit 7 None]))
    = last (flat_map limit_args
        [FromTable "a" None; Limit 5 (Some 10); FromTable "b" (Some "x");
         Limit 7 None]).
Proof. apply chain_last_call_wins. reflexivity. Defined.

(** Two calls that write different clauses can be made in either order. *)
Theorem calls_on_different_clauses_commute b (m1 m2 : mutator)
    (c1 c2 : clause) :
  clause_of m1 = Some c1 → clause_of m2 = Some c2 → c1 ≠ c2 →
  invoke (invoke b m1) m2 = invoke (invoke b m2) m1.
Proof.
  destruct m1, m2; cbn [clause_of]; intros [= <-] [= <-] Hne; done.
Qed.

Lemma calls_on_different_clauses_commute_witness :
  invoke (invoke (new 0) (Where "a = 1")) (Select ["id"])
  = invoke (invoke (new 0) (Select ["id"])) (Where "a = 1").
Proof.
  apply (calls_on_different_clauses_commute (new 0) (Where "a = 1")
           (Select ["id"]) WhereClause SelectClause);
    [reflexivity|reflexivity|discriminate].
Defined.

Lemma str_join_snoc (sep x : string) (l : list string) :
  l ≠ [] → str_join sep (l ++ [x]) = str_join sep l +:+ sep +:+ x.
Proof. intros Hl. by rewrite str_join_app. Qed.

(** Only [select] and [from_table]: the query is SELECT, the expressions,
    FROM, the table, and nothing after it. *)
Theorem select_from_only (id : nat) (columns : list string) (table : string) :
  str_join ", " columns ≠ "" → table ≠ "" →
  build (from_table (select (new id) columns) table None)
  = "SELECT " +:+ str_join ", " columns +:+ " FROM " +:+ table.
Proof.
  intros Hc Ht. unfold build, build_parts, select_clause, str_or.
  cbn [select from_table new __init__ query_parts empty_parts table_ref
       p_select p_from p_joins p_where p_group_by p_having p_order_by p_limit
       app truthy_list].
  destruct (str_join ", " columns) as [|c s] eqn:E; [done|].
  destruct table as [|c' table]; [done|].
  cbn [truthy_str app str_join]. by rewrite !str_app_assoc.
Qed.

Lemma select_from_only_witness :
  build (from_table (select (new 0) ["x"]) "t" None)
  = "SELECT " +:+ str_join ", " ["x"] +:+ " FROM " +:+ "t".
Proof. apply select_from_only; discriminate. Defined.

(** Falsy arguments of [from_table]: an empty alias is no alias, and an
    empty table name without alias leaves the query without FROM clause,
    also after an earlier [from_table]. *)
Theorem from_table_falsy_arguments b (table : string) :
  from_table b table (Some "") = from_table b table None
  ∧ build_parts (query_parts (from_table b "" None))
    = select_clause (query_parts b)
        :: p_joins (query_parts b) ++ later_parts (query_parts b).
Proof.
  split; [done|]. rewrite build_parts_eq. by destruct b as [id []].
Qed.

Lemma front_app {A} (x : A) (l1 l2 l3 : list A) :
  x :: l1 ++ l2 ++ l3 = (x :: l1 ++ l2) ++ l3.
Proof. by rewrite <-app_comm_cons, <-app_assoc. Qed.

(** With no clause after WHERE in the state, one more [where] call
    extends the query at its end: by the WHERE clause if there was none,
    by AND and the condition otherwise. *)
Theorem where_extends_query b (condition : string) :
  p_group_by (query_parts b) = [] → p_having (query_parts b) = [] →
  p_order_by (query_parts b) = [] → p_limit (query_parts b) = None →
  build (where_ b condition)
  = build b
      +:+ (if truthy_list (p_where (query_parts b))
           then " AND " else " WHERE ")
      +:+ condition.
Proof.
  destruct b as [id [sel frm jns whr grp hav ord lim]].
  cbn [query_parts p_group_by p_having p_order_by p_limit p_where].
  intros -> -> -> ->. unfold build. rewrite !build_parts_eq.
  unfold later_parts, from_part, select_clause.
  cbn [where_ query_parts p_select p_from p_joins p_where p_group_by p_having
       p_order_by p_limit truthy_list].
  rewrite !app_nil_r.
  destruct whr as [|w ws]; cbn [truthy_list app].
  - rewrite app_nil_r, front_app, str_join_snoc by done.
    cbn [str_join]. done.
  - change (w :: ws ++ [condition]) with ((w :: ws) ++ [condition]).
    rewrite !front_app, !(str_join_snoc " ") by done.
    rewrite (str_join_snoc " AND " condition (w :: ws)) by done.
    by rewrite !str_app_assoc.
Qed.

Lemma where_extends_query_witness :
  build (where_ (where_ (from_table (new 0) "t" None) "a = 1") "b = 2")
  = build (where_ (from_table (new 0) "t" None) "a = 1")
      +:+ (if truthy_list
                (p_where (query_parts
                            (where_ (from_table (new 0) "t" None) "a = 1")))
           then " AND " else " WHERE ")
      +:+ "b = 2".
Proof. apply where_extends_query; reflexivity. Defined.

(** On a builder without limit, [limit] extends the query at its end by
    the LIMIT clause, also for the count zero. *)
Theorem limit_extends_query b (count : Z) (offset : option Z) :
  p_limit (query_parts b) = None →
  build (limit b count offset)
  = build b +:+ " " +:+ limit_text count offset.
Proof.
  intros Hl. unfold build. rewrite !build_parts_eq. unfold later_parts.
  rewrite limit_stores, Hl.
  destruct b as [id [sel frm jns whr grp hav ord lim]].
  cbn [limit query_parts p_select p_from p_joins p_where p_group_by p_having
       p_order_by p_limit].
  assert (truthy_str (limit_text count offset) = true) as -> by done.
  rewrite !app_nil_r, !app_assoc, app_comm_cons.
  by rewrite str_join_snoc.
Qed.

Lemma limit_extends_query_witness :
  build (limit (select (new 0) ["id"]) 0 (Some 20))
  = build (select (new 0) ["id"]) +:+ " " +:+ limit_text 0 (Some 20).
Proof. apply limit_extends_query. reflexivity. Defined.

Lemma part_substring b (part x : string) :
  part ∈ build_parts (query_parts b) → substring_of x part →
  substring_of x (build b).
Proof.
  intros Hin Hsub. eapply substring_of_trans; [done|]. by apply str_join_elem.
Qed.

Lemma joined_substring (kw sep x : string) (l : list string) :
  x ∈ l → substring_of x (kw +:+ str_join sep l).
Proof. intros Hx. by apply substring_of_suffix, str_join_elem. Qed.

(** Every fragment held by the state stands in the query as it was given:
    nothing is escaped, quoted or dropped. *)
Theorem fragments_appear_verbatim b (x : string) :
  x ∈ p_select (query_parts b) ∨ x ∈ p_joins (query_parts b)
  ∨ x ∈ p_where (query_parts b) ∨ x ∈ p_group_by (query_parts b)
  ∨ x ∈ p_having (query_parts b) ∨ x ∈ p_order_by (query_parts b)
  ∨ x = p_from (query_parts b) ∨ p_limit (query_parts b) = Some x →
  substring_of x (build b).
Proof.
  set (q := query_parts b).
  intros [H|[H|[H|[H|[H|[H|[H|H]]]]]]].
  - apply (part_substring b (select_clause q)).
    { rewrite build_parts_eq. by left. }
    unfold select_clause, str_or.
    destruct (str_join ", " (p_select q)) as [|c s] eqn:E.
    + destruct (str_join_empty ", " (p_select q)) as [E'|E'];
        [done|done| |]; rewrite E' in H.
      * by apply elem_of_nil in H.
      * apply list_elem_of_singleton in H as ->. apply substring_of_empty.
    + cbn [truthy_str]. rewrite <-E. by apply joined_substring.
  - apply (part_substring b x); [|apply substring_of_refl].
    rewrite build_parts_eq. set_solver.
  - apply (part_substring b ("WHERE " +:+ str_join " AND " (p_where q)));
      [|by apply joined_substring].
    rewrite build_parts_eq. unfold later_parts. fold q.
    destruct (p_where q); [by apply elem_of_nil in H|].
    cbn [truthy_list]. clear.
    rewrite elem_of_cons, !elem_of_app, !elem_of_cons. tauto.
  - apply (part_substring b ("GROUP BY " +:+ str_join ", " (p_group_by q)));
      [|by apply joined_substring].
    rewrite build_parts_eq. unfold later_parts. fold q.
    destruct (p_group_by q); [by apply elem_of_nil in H|].
    cbn [truthy_list]. clear.
    rewrite elem_of_cons, !elem_of_app, !elem_of_cons. tauto.
  - apply (part_substring b ("HAVING " +:+ str_join " AND " (p_having q)));
      [|by apply joined_substring].
    rewrite build_parts_eq. unfold later_parts. fold q.
    destruct (p_having q); [by apply elem_of_nil in H|].
    cbn [truthy_list]. clear.
    rewrite elem_of_cons, !elem_of_app, !elem_of_cons. tauto.
  - apply (part_substring b ("ORDER BY " +:+ str_join ", " (p_order_by q)));
      [|by apply joined_substring].
    rewrite build_parts_eq. unfold later_parts. fold q.
    destruct (p_order_by q); [by apply elem_of_nil in H|].
    cbn [truthy_list]. clear.
    rewrite elem_of_cons, !elem_of_app, !elem_of_cons. tauto.
  - destruct x as [|c x]; [apply substring_of_empty|].
    apply (part_substring b ("FROM " +:+ String c x));
      [|apply substring_of_suffix, substring_of_refl].
    rewrite build_parts_eq. unfold from_part. fold q. rewrite <-H.
    cbn [truthy_str]. set_solver.
  - destruct x as [|c x]; [apply substring_of_empty|].
    apply (part_substring b (String c x)); [|apply substring_of_refl].
    rewrite build_parts_eq. unfold later_parts. fold q. rewrite H.
    cbn [truthy_str]. set_solver.
Qed.

Lemma fragments_appear_verbatim_witness :
  substring_of "name = 'O''Brien' -- "
    (build (where_ (from_table (new 0) "users" None)
              "name = 'O''Brien' -- ")).
Proof.
  apply fragments_appear_verbatim. right; right; left. set_solver.
Defined.
End chains.

(** ** The variation engine *)

Section variations.
Import SQLVariationEngine.

Implicit Types (self : SQLVariationEngine.t).

(** The loop of [extend_each] appends, column by column, what its body
    gives. *)
Lemma extend_each_flat_map (body : string → list string)
    (cols queries : list string) :
  extend_each body cols queries = queries ++ flat_map body cols.
Proof.
  revert queries. induction cols as [|col cols IH]; intros queries.
  - by rewrite app_nil_r.
  - cbn [extend_each flat_map]. by rewrite IH, app_assoc.
Qed.

Lemma flat_map_length_const {A B} (f : A → list B) (n : nat) (l : list A) :
  (∀ a, length (f a) = n) → length (flat_map f l) = (n * length l)%nat.
Proof.
  intros Hf. induction l as [|a l IH]; [cbn; lia|].
  cbn [flat_map]. rewrite length_app, Hf, IH. cbn [length]. lia.
Qed.

(** [generate_crud_variations] needs the key [table] only: without it the
    call raises [KeyError] whatever else is given, and with it the call
    returns five SELECT and three DELETE queries, and three INSERT and two
    UPDATE queries when there is a column, none when there is not. *)
Theorem crud_variation_counts self (config : crud_config) :
  match cc_table config with
  | None => generate_crud_variations self config = KeyError "table"
  | Some _ =>
      ∃ v, generate_crud_variations self config = Found v
        ∧ length (v_select v) = 5%nat ∧ length (v_delete v) = 3%nat
        ∧ length (v_insert v)
          = (if truthy_list (get (cc_columns config) []) then 3 else 0)%nat
        ∧ length (v_update v)
          = (if truthy_list (get (cc_columns config) []) then 2 else 0)%nat
  end.
Proof.
  unfold generate_crud_variations.
  destruct (cc_table config) as [table|]; [|done].
  cbn [getitem]. eexists. split; [done|].
  cbn [v_select v_delete v_insert v_update].
  by destruct (get (cc_columns config) []).
Qed.

(** Without columns (the key absent or the list empty) the second SELECT
    query has an empty select list, the last one repeats the first, and
    there is no INSERT and no UPDATE query. *)
Theorem crud_without_columns self (config : crud_config) (table : string) :
  cc_table config = Some table →
  get (cc_columns config) [] = [] →
  ∃ v, generate_crud_variations self config = Found v
    ∧ v_select v !! 1%nat = Some ("SELECT  FROM " +:+ table)
    ∧ v_select v !! 4%nat = v_select v !! 0%nat
    ∧ v_insert v = [] ∧ v_update v = [].
Proof.
  intros Ht Hc. unfold generate_crud_variations. rewrite Ht, Hc.
  cbn [getitem]. eexists. split; [done|]. done.
Qed.

Lemma crud_without_columns_witness :
  ∃ v, generate_crud_variations __init__
         (CrudConfig (Some "logs") None (Some "log_id")) = Found v
    ∧ v_select v !! 1%nat = Some ("SELECT  FROM " +:+ "logs")
    ∧ v_select v !! 4%nat = v_select v !! 0%nat
    ∧ v_insert v = [] ∧ v_update v = [].
Proof. apply crud_without_columns; reflexivity. Defined.

(** [generate_analytical_variations] returns three queries on the date
    column, two for each group column, two for each numeric column, and
    two window queries when there is a column of each kind. *)
Theorem analytical_variation_count self (config : analytical_config)
    (table : string) :
  ac_table config = Some table →
  ∃ queries,
    generate_analytical_variations self config = Found queries
    ∧ length queries
      = (3 + 2 * length (get (ac_group_columns config) [])
           + 2 * length (get (ac_numeric_columns config) [])
           + (if truthy_list (get (ac_group_columns config) [])
                 && truthy_list (get (ac_numeric_columns config) [])
              then 2 else 0))%nat.
Proof.
  intros Ht. unfold generate_analytical_variations. rewrite Ht.
  cbn [getitem]. eexists. split; [done|].
  set (g := get (ac_group_columns config) []).
  set (n := get (ac_numeric_columns config) []).
  assert (∀ l qs, length (extend_each (grouping_queries table) l qs)
                  = (length qs + 2 * length l)%nat) as Hg.
  { intros l qs. rewrite extend_each_flat_map, length_app.
    by rewrite (flat_map_length_const _ 2). }
  assert (∀ l qs, length (extend_each (numeric_queries table) l qs)
                  = (length qs + 2 * length l)%nat) as Hn.
  { intros l qs. rewrite extend_each_flat_map, length_app.
    by rewrite (flat_map_length_const _ 2). }
  destruct g as [|g0 g], n as [|n0 n]; cbn [truthy_list andb app];
    repeat (rewrite length_app || rewrite Hg || rewrite Hn);
    cbn [length]; lia.
Qed.

Lemma analytical_variation_count_witness :
  ∃ queries,
    generate_analytical_variations __init__
      (AnalyticalConfig (Some "api_logs") (Some "timestamp")
         (Some ["endpoint"; "method"; "status_code"])
         (Some ["response_time_ms"; "request_size_bytes"]))
    = Found queries
    ∧ length queries
      = (3 + 2 * length (get (Some ["endpoint"; "method"; "status_code"]) [])
           + 2 * length
                   (get (Some ["response_time_ms"; "request_size_bytes"]) [])
           + (if truthy_list
                   (get (Some ["endpoint"; "method"; "status_code"]) [])
                 && truthy_list
                      (get (Some ["response_time_ms"; "request_size_bytes"])
                         [])
              then 2 else 0))%nat.
Proof.
  apply (analytical_variation_count __init__
           (AnalyticalConfig (Some "api_logs") (Some "timestamp")
              (Some ["endpoint"; "method"; "status_code"])
              (Some ["response_time_ms"; "request_size_bytes"]))
           "api_logs").
  reflexivity.
Defined.

(** The loop over the joins returns exactly when every entry has the keys
    [table] and [on], and it then adds three queries for each entry. *)
Lemma join_loop_found (main_table : string) (join_configs : list join_config)
    (queries : list string) :
  Forall (λ jc, is_Some (jc_table jc) ∧ is_Some (jc_on jc)) join_configs →
  ∃ queries',
    join_loop main_table join_configs queries = Found queries'
    ∧ length queries' = (length queries + 3 * length join_configs)%nat.
Proof.
  intros H. revert queries.
  induction H as [|jc jcs [[t Ht] [o Ho]] _ IH]; intros queries.
  - exists queries. split; [done|]. cbn [length]. lia.
  - cbn [join_loop]. rewrite Ht, Ho. cbn [getitem].
    destruct (IH (queries ++ join_queries main_table t o
                              (get (jc_type jc) "INNER")))
      as (queries' & -> & Hlen).
    exists queries'. split; [done|].
    rewrite Hlen, length_app. cbn [length join_queries]. lia.
Qed.

Lemma join_loop_key_error (main_table : string)
    (join_configs : list join_config) (queries : list string) :
  ¬ Forall (λ jc, is_Some (jc_table jc) ∧ is_Some (jc_on jc)) join_configs →
  ∃ key, join_loop main_table join_configs queries = KeyError key.
Proof.
  revert queries. induction join_configs as [|jc jcs IH]; intros queries Hn.
  - by destruct Hn.
  - cbn [join_loop].
    destruct (jc_table jc) as [t|] eqn:Ht; [|by eexists].
    destruct (jc_on jc) as [o|] eqn:Ho; [|by eexists].
    cbn [getitem]. apply IH. intros HF. apply Hn. constructor; [|done].
    rewrite Ht, Ho. by split.
Qed.

(** [generate_join_variations] returns queries exactly when the config
    has the keys [main_table] and [joins] and every join has the keys
    [table] and [on]; otherwise it raises [KeyError] and gives no query,
    not even those of the joins before the faulty one. *)
Theorem join_variations_keys self (config : join_variations_config) :
  (∃ queries, generate_join_variations self config = Found queries)
  ↔ is_Some (jv_main_table config)
    ∧ ∃ join_configs,
        jv_joins config = Some join_configs
        ∧ Forall (λ jc, is_Some (jc_table jc) ∧ is_Some (jc_on jc))
            join_configs.
Proof.
  unfold generate_join_variations.
  destruct (jv_main_table config) as [main_table|]; cbn [getitem];
    [|split; [by intros [? ?]|by intros [[? ?] _]]].
  destruct (jv_joins config) as [join_configs|]; cbn [getitem];
    [|split; [by intros [? ?]|by intros [_ (? & ? & _)]]].
  split.
  - intros [queries Hq]. split; [done|]. exists join_configs. split; [done|].
    destruct (decide (Forall (λ jc, is_Some (jc_table jc) ∧ is_Some (jc_on jc))
                        join_configs)) as [|Hn]; [done|].
    destruct (join_loop_key_error main_table join_configs [] Hn) as [key Hk].
    congruence.
  - intros [_ (jcs & [= <-] & HF)].
    destruct (join_loop_found main_table join_configs [] HF)
      as (queries & -> & _).
    by exists queries.
Qed.

(** When it returns, there are three queries for each join. *)
Theorem join_variations_count self (config : join_variations_config)
    (join_configs : list join_config) (queries : list string) :
  jv_joins config = Some join_configs →
  generate_join_variations self config = Found queries →
  length queries = (3 * length join_configs)%nat.
Proof.
  intros Hj Hq. unfold generate_join_variations in Hq.
  destruct (jv_main_table config) as [main|]; [|done].
  rewrite Hj in Hq. cbn [getitem] in Hq.
  destruct (decide (Forall (λ jc, is_Some (jc_table jc) ∧ is_Some (jc_on jc))
                      join_configs)) as [HF|Hn].
  - destruct (join_loop_found main join_configs [] HF)
      as (queries' & Hq' & Hlen).
    assert (queries' = queries) as -> by congruence.
    by rewrite Hlen.
  - destruct (join_loop_key_error main join_configs [] Hn) as [key Hk].
    congruence.
Qed.

Lemma join_variations_count_witness :
  length
    (join_queries "users" "orders" "u.id = o.user_id" "INNER"
       ++ join_queries "users" "profiles" "u.id = p.user_id" "LEFT")
  = (3 * length
           [JoinConfig (Some "orders") (Some "u.id = o.user_id") None;
            JoinConfig (Some "profiles") (Some "u.id = p.user_id")
              (Some "LEFT")])%nat.
Proof.
  apply (join_variations_count __init__
           (JoinVariationsConfig (Some "users")
              (Some [JoinConfig (Some "orders") (Some "u.id = o.user_id") None;
                     JoinConfig (Some "profiles") (Some "u.id = p.user_id")
                       (Some "LEFT")]))).
  - reflexivity.
  - reflexivity.
Defined.

(** The first query for a join is the query the builder builds from the
    main table and that join. *)
Theorem join_variation_is_builder_query self (id : nat)
    (main_table join_table on_condition : string) (join_type : option string) :
  main_table ≠ "" →
  ∃ q2 q3,
    generate_join_variations self
      (JoinVariationsConfig (Some main_table)
         (Some [JoinConfig (Some join_table) (Some on_condition) join_type]))
    = Found
        [ DynamicSQLBuilder.build
            (DynamicSQLBuilder.join
               (DynamicSQLBuilder.from_table (DynamicSQLBuilder.new id)
                  main_table None)
               join_table on_condition (get join_type "INNER") None);
          q2; q3 ].
Proof.
  intros Hm. unfold generate_join_variations.
  cbn [jv_main_table jv_joins getitem join_loop jc_table jc_on jc_type app
       join_queries].
  do 2 eexists. do 2 f_equal.
  unfold DynamicSQLBuilder.build, DynamicSQLBuilder.build_parts.
  destruct main_table as [|c main_table]; [done|].
  cbn [DynamicSQLBuilder.join DynamicSQLBuilder.from_table
       DynamicSQLBuilder.new DynamicSQLBuilder.__init__
       DynamicSQLBuilder.query_parts DynamicSQLBuilder.empty_parts
       DynamicSQLBuilder.table_ref DynamicSQLBuilder.p_select
       DynamicSQLBuilder.p_from DynamicSQLBuilder.p_joins
       DynamicSQLBuilder.p_where DynamicSQLBuilder.p_group_by
       DynamicSQLBuilder.p_having DynamicSQLBuilder.p_order_by
       DynamicSQLBuilder.p_limit app truthy_list truthy_str str_join].
  unfold DynamicSQLBuilder.select_clause. cbn [str_join str_or truthy_str].
  by rewrite !str_app_assoc.
Qed.

Lemma join_variation_is_builder_query_witness :
  ∃ q2 q3,
    generate_join_variations __init__
      (JoinVariationsConfig (Some "users")
         (Some [JoinConfig (Some "orders") (Some "users.id = orders.user_id")
                  (Some "LEFT")]))
    = Found
        [ DynamicSQLBuilder.build
            (DynamicSQLBuilder.join
               (DynamicSQLBuilder.from_table (DynamicSQLBuilder.new 0)
                  "users" None)
               "orders" "users.id = orders.user_id" (get (Some "LEFT") "INNER")
               None);
          q2; q3 ].
Proof. apply join_variation_is_builder_query. discriminate. Defined.
End variations.

(** ** Stray delimiters and resets *)

Section edges.
Import Template DynamicSQLBuilder.

(** A delimiter that starts no placeholder and no escape (it ends the
    pattern, or a character other than a letter, an underscore, a brace
    or a delimiter follows it) is copied to the output, and the pattern
    is rendered around it; nothing is raised. *)
Theorem lone_delimiter_copied (variables : gmap string string) (a r : string) :
  Nat.even (trailing_delims a) = true →
  match r with
  | "" => True
  | String c _ =>
      is_id_start c = false ∧ Ascii.eqb c "$" = false
      ∧ Ascii.eqb c "{" = false
  end →
  safe_substitute (Template (a +:+ "$" +:+ r)) variables
  = safe_substitute (Template a) variables
      +:+ "$" +:+ safe_substitute (Template r) variables.
Proof.
  intros Heven Hr. unfold safe_substitute. cbn [template].
  change (a +:+ "$" +:+ r) with (a +:+ String delimiter r).
  rewrite (sub_app_delim _ _ _ Heven). f_equal.
  rewrite (sub_match _ _ Invalid r); [done|].
  destruct r as [|c r]; [done|]. destruct Hr as (Hs & Hd & Hb).
  cbn [match_at]. change (Ascii.eqb delimiter delimiter) with true. cbn iota.
  unfold try_escaped, try_named, match_id, try_braced, try_invalid.
  change (Ascii.eqb c delimiter) with (Ascii.eqb c "$"). rewrite Hd, Hs.
  cbn [or_else]. revert Hb. clear.
  destruct c as [[] [] [] [] [] [] [] []]; done.
Qed.

Lemma lone_delimiter_copied_witness :
  safe_substitute (Template ("price > " +:+ "$" +:+ "5 AND id = $id"))
    {[ "id" := "7" ]}
  = safe_substitute (Template "price > ") {[ "id" := "7" ]}
      +:+ "$" +:+ safe_substitute (Template "5 AND id = $id") {[ "id" := "7" ]}.
Proof.
  apply (lone_delimiter_copied {[ "id" := "7" ]} "price > " "5 AND id = $id").
  - reflexivity.
  - repeat split.
Defined.

Lemma chain_app (b : DynamicSQLBuilder.t) (ms1 ms2 : list mutator) :
  chain b (ms1 ++ ms2) = chain (chain b ms1) ms2.
Proof. unfold chain. by rewrite foldl_app. Qed.

(** A [reset] in a chain discards every call before it: the builder ends
    in the state the calls after the reset give to a new builder. *)
Theorem reset_discards_earlier_calls (id : nat) (ms1 ms2 : list mutator) :
  chain (new id) (ms1 ++ Reset :: ms2) = chain (new id) ms2.
Proof.
  rewrite chain_app. change (Reset :: ms2) with ([Reset] ++ ms2).
  rewrite chain_app. f_equal. unfold chain at 1. cbn [foldl invoke].
  by rewrite reset_new, chain_obj_id.
Qed.
End edges.
